(** * isisdl: discovery, resolution and conflict handling

    A shallow embedding of [src/isisdl/backend/request_helper.py] and the
    properties its specification states about it.  Python values are
    modelled as follows: [str] as [string], [int] as [Z], [Optional] as
    [option], lists as [list], the insertion-ordered [defaultdict(list)] as
    an association list, mutable objects as cells of a store addressed by
    references. *)

From Stdlib Require Import ZArith Ascii String DecimalString DecimalZ DecimalPos.
From stdpp Require Import base decidable option list sorting strings functions gmap.

Local Open Scope string_scope.
Local Open Scope list_scope.
Local Open Scope Z_scope.

(** ** Python string primitives *)

Module PyStr.

(** [str(i)] for an [int]. *)
Definition str (z : Z) : string := NilZero.string_of_int (Z.to_int z).

(** [s[:n]] for [0 <= n]. *)
Fixpoint take (n : nat) (s : string) : string :=
  match n, s with
  | O, _ => EmptyString
  | S n', String a s' => String a (take n' s')
  | S _, EmptyString => EmptyString
  end.

(** [s[n:]] for [0 <= n]. *)
Fixpoint drop (n : nat) (s : string) : string :=
  match n, s with
  | O, _ => s
  | S n', String _ s' => drop n' s'
  | S _, EmptyString => EmptyString
  end.

(** [s.startswith(p)] *)
Fixpoint startswith (s p : string) : bool :=
  match p, s with
  | EmptyString, _ => true
  | String a p', String b s' => if Ascii.eqb a b then startswith s' p' else false
  | String _ _, EmptyString => false
  end.

(** [s.endswith(p)] *)
Definition endswith (s p : string) : bool :=
  (String.length p <=? String.length s)%nat
  && String.eqb (drop (String.length s - String.length p) s) p.

(** [p in s] for strings: [p] occurs as a substring of [s]. *)
Fixpoint contains (p s : string) : bool :=
  startswith s p ||
  match s with
  | EmptyString => false
  | String _ s' => contains p s'
  end.

(** [s[:-len(p)]] for a non-empty [p]. *)
Definition drop_last (s p : string) : string :=
  take (String.length s - String.length p) s.

(** [s.rfind(c)] for a one-character [c]: the highest index, or [-1]. *)
Fixpoint rfind_from (c : ascii) (s : string) (i last : Z) : Z :=
  match s with
  | EmptyString => last
  | String a s' => rfind_from c s' (i + 1) (if Ascii.eqb a c then i else last)
  end.

Definition rfind (c : ascii) (s : string) : Z := rfind_from c s 0 (-1).

(** [s.strip(c)] with a one-character set. *)
Fixpoint lstrip (c : ascii) (s : string) : string :=
  match s with
  | String a s' => if Ascii.eqb a c then lstrip c s' else s
  | EmptyString => EmptyString
  end.

Fixpoint rstrip (c : ascii) (s : string) : string :=
  match s with
  | EmptyString => EmptyString
  | String a s' =>
      match rstrip c s' with
      | EmptyString => if Ascii.eqb a c then EmptyString else String a EmptyString
      | r => String a r
      end
  end.

Definition strip (c : ascii) (s : string) : string := rstrip c (lstrip c s).

(** ASCII lower-casing, as used for case-insensitive header names. *)
Definition lower_ascii (a : ascii) : ascii :=
  let n := nat_of_ascii a in
  if ((65 <=? n) && (n <=? 90))%nat then ascii_of_nat (n + 32) else a.

Fixpoint lower (s : string) : string :=
  match s with
  | EmptyString => EmptyString
  | String a s' => String (lower_ascii a) (lower s')
  end.

End PyStr.

(** ** [sorted]: Python's stable sort

    [sorted] only compares with [<] and keeps the relative order of elements
    that do not compare smaller either way.  Every stable sort computes the
    same list, so the model is insertion from the right. *)

Section Sorted.
Context {A : Type} (lt : A → A → bool).

Fixpoint sorted_insert (x : A) (l : list A) : list A :=
  match l with
  | [] => [x]
  | y :: l' => if lt y x then y :: sorted_insert x l' else x :: y :: l'
  end.

Definition sorted (l : list A) : list A := foldr sorted_insert [] l.

(** [sorted(l, reverse=True)]: CPython reverses the list, sorts it and
    reverses the result, which keeps equal elements in input order. *)
Definition sorted_reverse (l : list A) : list A := reverse (sorted (reverse l)).
End Sorted.

(** [sorted(l, key=f)] for an integer key. *)
Definition key_lt {A} (key : A → Z) (x y : A) : bool := key x <? key y.

Definition sorted_by {A} (key : A → Z) : list A → list A := sorted (key_lt key).

Definition sorted_by_reverse {A} (key : A → Z) : list A → list A :=
  sorted_reverse (key_lt key).

(** Order by key, ties decided by [R]. *)
Definition key_then {A} (key : A → Z) (R : relation A) (x y : A) : Prop :=
  key x < key y ∨ (key x = key y ∧ R x y).

(** Ascending and descending order of the keys. *)
Definition ascending {A} (key : A → Z) (x y : A) : Prop := key x ≤ key y.
Definition descending {A} (key : A → Z) (x y : A) : Prop := key y ≤ key x.

(** [os.path.splitext] (POSIX flavour): the extension starts at the last dot
    of the last path component, unless that component only has leading
    dots. *)
Fixpoint splitext_scan (p : string) (filenameIndex : Z) (fuel : nat) : bool :=
  match fuel with
  | O => false
  | S fuel' =>
      if negb (String.eqb (PyStr.take 1 (PyStr.drop (Z.to_nat filenameIndex) p)) ".")
      then true
      else splitext_scan p (filenameIndex + 1) fuel'
  end.

Definition splitext (p : string) : string * string :=
  let sepIndex := PyStr.rfind "/" p in
  let dotIndex := PyStr.rfind "." p in
  if (sepIndex <? dotIndex)
     && splitext_scan p (sepIndex + 1) (Z.to_nat (dotIndex - (sepIndex + 1)))
  then (PyStr.take (Z.to_nat dotIndex) p, PyStr.drop (Z.to_nat dotIndex) p)
  else (p, "").

(** [os.path.basename] (POSIX flavour): what follows the last slash. *)
Definition basename (p : string) : string :=
  PyStr.drop (Z.to_nat (PyStr.rfind "/" p + 1)) p.

(** [os.path.join(a, b)] (POSIX flavour). *)
Definition path_join (a b : string) : string :=
  if PyStr.startswith b "/" then b
  else if String.eqb a "" || PyStr.endswith a "/" then a +:+ b
  else a +:+ "/" +:+ b.

(** ** [defaultdict(list)]

    A [dict] iterates in insertion order of its keys, so the model is an
    association list to which a new key is added at the end. *)

Section DefaultDict.
Context {K V : Type} `{EqDecision K}.

(** [d[k].append(x)] *)
Fixpoint dd_append (k : K) (x : V) (d : list (K * list V)) : list (K * list V) :=
  match d with
  | [] => [(k, [x])]
  | (k', g) :: d' =>
      if decide (k = k') then (k', g ++ [x]) :: d' else (k', g) :: dd_append k x d'
  end.

(** [for item in l: d[key(item)].append(item)] starting from [d]. *)
Definition dd_collect (key : V → K) (l : list V) (d : list (K * list V)) : list (K * list V) :=
  foldl (λ acc item, dd_append (key item) item acc) d l.

(** [d.values()] *)
Definition dd_values (d : list (K * list V)) : list (list V) := d.*2.

(** Reading [d[k]]: the list stored for [k], empty for a key never seen. *)
Fixpoint dd_get (k : K) (d : list (K * list V)) : list V :=
  match d with
  | [] => []
  | (k', g) :: d' => if decide (k = k') then g else dd_get k d'
  end.
End DefaultDict.

(** Modelled from the spec: the enum [MediaType] of
    [isisdl.backend.downloads] is not among the sources.  The specification
    lists the kinds document, video and external; the code names them
    [MediaType.document], [MediaType.video] and [MediaType.extern]. *)
Inductive MediaType := document | extern | video.

Global Instance MediaType_eq_dec : EqDecision MediaType.
Proof. solve_decision. Defined.

(** ** Configuration and external helpers

    The fields of [isisdl.backend.utils.config] read by the functions below. *)
Record Config := mkConfig {
  whitelist : option (list Z);
  blacklist : option (list Z);
  renamed_courses : option (gmap Z string);
  make_subdirs : bool;
}.

(** Helpers imported from modules outside of [request_helper.py], from the
    standard library ([re], [email.utils], [int]) and from
    [isisdl.backend.utils]/[downloads].  The functions below only pass
    values through them, so they are parameters of the model. *)
Record Externals := mkExternals {
  (** [utils.sanitize_name] *)
  sanitize_name : string → string;
  (** [utils.path] applied to the given components, as a [str] *)
  path : list string → string;
  (** [MediaType.dir_name] *)
  dir_name : MediaType → string;
  (** [utils.parse_google_drive_url] *)
  parse_google_drive_url : string → option string;
  (** [utils.get_url_from_gdrive_confirmation] *)
  get_url_from_gdrive_confirmation : string → option string;
  (** the [re.findall] of quoted [filename=] values in [str(con.headers)] *)
  findall_filename : list (string * string) → list string;
  (** [int(s)]; [None] when it raises [ValueError] *)
  int_of_str : string → option Z;
  (** [int(parsedate_to_datetime(s).timestamp())]; [None] when it raises *)
  parsedate_to_timestamp : string → option Z;
}.

(** One entry of the [core_enrol_get_users_courses] response. *)
Module CourseInfo.
Record t := mk {
  displayname : string;
  shortname : string;
  id : Z;
}.
End CourseInfo.

(** ** [class Course] *)

Module Course.

Record t := mk {
  old_name : string;
  _name : string;
  name : string;
  course_id : Z;
}.

(** The values a [Course] may be compared with. [PyObject cls] stands for an
    instance of any class other than [Course], [str], [int] and [bool]. *)
Inductive PyValue :=
  | PyBool (b : bool)
  | PyInt (z : Z)
  | PyString (s : string)
  | PyNone
  | PyCourse (c : t)
  | PyObject (cls : string).

(** [str(other)] for the values that pass [isinstance(other, (str, int))];
    [bool] is a subclass of [int]. *)
Definition str_of (other : PyValue) : option string :=
  match other with
  | PyString s => Some s
  | PyInt z => Some (PyStr.str z)
  | PyBool true => Some "True"
  | PyBool false => Some "False"
  | _ => None
  end.

(** [Course.__eq__] *)
Definition eq (self : t) (other : PyValue) : bool :=
  match other with
  | PyBool true => true
  | PyCourse c => bool_decide (course_id self = course_id c)
  | _ =>
      match str_of other with
      | Some s => String.eqb (PyStr.str (course_id self)) s
      | None => false
      end
  end.

(** [Course.__hash__] *)
Definition hash (self : t) : Z := course_id self.

(** [Course.__lt__] *)
Definition lt (self other : t) : bool := course_id self <? course_id other.

(** [Course.path] *)
Definition path_of (ext : Externals) (self : t) (args : list string) : string :=
  path ext (name self :: args).

(** [Course.from_dict]; the directories it creates are not modelled. *)
Definition from_dict (ext : Externals) (config : Config) (info : CourseInfo.t) : t :=
  let old_name := CourseInfo.displayname info in
  let _name :=
    if String.eqb (CourseInfo.shortname info) "" then CourseInfo.displayname info
    else CourseInfo.shortname info in
  let id := CourseInfo.id info in
  let name :=
    match renamed_courses config with
    | None => _name
    | Some renamed =>
        let r := default "" (renamed !! id) in
        if String.eqb r "" then _name else r
    end in
  mk (sanitize_name ext old_name) _name (sanitize_name ext name) id.

(** [Course.ok].  The four tests of the source are exhaustive, so its final
    [assert False] is never reached. *)
Definition ok (config : Config) (self : t) : bool :=
  match whitelist config, blacklist config with
  | None, None => true
  | None, Some bl => negb (bool_decide (course_id self ∈ bl))
  | Some wl, None => bool_decide (course_id self ∈ wl)
  | Some wl, Some bl =>
      bool_decide (course_id self ∈ wl) && negb (bool_decide (course_id self ∈ bl))
  end.

(** The inclusion policy in the words of the specification: neither list
    set, blacklist only, whitelist only, both. *)
Definition included (config : Config) (self : t) : Prop :=
  match whitelist config, blacklist config with
  | None, None => True
  | None, Some bl => course_id self ∉ bl
  | Some wl, None => course_id self ∈ wl
  | Some wl, Some bl => course_id self ∈ wl ∧ course_id self ∉ bl
  end.

(** The values whose equality with a course is decided by its [course_id]:
    another course, an [int] or a [str]. *)
Definition determined_by_id (self : t) (other : PyValue) : Prop :=
  (∃ c, other = PyCourse c ∧ course_id self = course_id c)
  ∨ other = PyInt (course_id self)
  ∨ other = PyString (PyStr.str (course_id self)).

End Course.

(** ** [class PreMediaContainer]: resource descriptors *)

Module PreMediaContainer.

Record t := mk {
  _name : string;
  url : string;
  download_url : string;
  location : string;
  time : Z;
  course_id : Z;
  media_type : MediaType;
  size : Z;
  checksum : option string;
}.

(** [self._name = n] *)
Definition set_name (n : string) (self : t) : t :=
  mk n (url self) (download_url self) (location self) (time self)
     (course_id self) (media_type self) (size self) (checksum self).

(** Two descriptors that agree on every field but the display name. *)
Definition same_but_name (a b : t) : Prop :=
  url a = url b ∧ download_url a = download_url b ∧ location a = location b
  ∧ time a = time b ∧ course_id a = course_id b ∧ media_type a = media_type b
  ∧ size a = size b ∧ checksum a = checksum b.

Definition force_download : string := "?forcedownload=1".

(** Lines 182-183 and 229-230: a trailing [?forcedownload=1] is cut off. *)
Definition strip_force_download (url : string) : string :=
  if PyStr.endswith url force_download then PyStr.drop_last url force_download
  else url.

(** [PreMediaContainer.document_from_api]; [os.makedirs] and the logged
    message are not modelled. *)
Definition document_from_api (ext : Externals) (config : Config)
    (name url download_url : string) (course : Course.t) (last_modified : Z)
    (relative_location : option string) (size : Z) : t :=
  let relative_location := default "" relative_location in
  let relative_location := PyStr.strip "/" relative_location in
  let relative_location := if make_subdirs config then relative_location else "" in
  let is_video := PyStr.contains "mod/videoservice/file.php" url in
  let relative_location :=
    if is_video then path_join relative_location "Videos" else relative_location in
  let url := strip_force_download url in
  let location := Course.path_of ext course [sanitize_name ext relative_location] in
  mk name url download_url location last_modified (Course.course_id course)
     document size None.

End PreMediaContainer.

Global Instance PreMediaContainer_inhabited : Inhabited PreMediaContainer.t :=
  populate (PreMediaContainer.mk "" "" "" "" 0 0 document (-1) None).

(** ** The resource cache *)

Module Database.

(** Modelled from the spec: the persisted cache [database_helper] of
    [isisdl.backend.utils] is not among the sources.  Its contract is a
    positive cache keyed by the source url, written by an upsert, and a set
    of known-bad urls that only grows. *)
Record t := mk {
  bad_urls : gset string;
  pre_containers : gmap string PreMediaContainer.t;
}.

(** Modelled from the spec: [get_bad_urls() -> set<url>]. *)
Definition get_bad_urls (db : t) : gset string := bad_urls db.

(** Modelled from the spec: [get_pre_container_by_url(url) -> record|None],
    the record read back as the container it was stored from. *)
Definition get_pre_container_by_url (url : string) (db : t) : option PreMediaContainer.t :=
  pre_containers db !! url.

(** Modelled from the spec: [add_pre_container(descriptor)], an upsert keyed
    by the source url of the descriptor. *)
Definition add_pre_container (c : PreMediaContainer.t) (db : t) : t :=
  mk (bad_urls db) (<[PreMediaContainer.url c := c]> (pre_containers db)).

(** Modelled from the spec: [add_bad_url(url)]; marking twice is marking
    once. *)
Definition add_bad_url (url : string) (db : t) : t :=
  mk ({[url]} ∪ bad_urls db) (pre_containers db).

End Database.

(** ** The network *)

(** What the code reads of a [requests.Response]. *)
Record Response := mkResponse {
  headers : list (string * string);
  text : string;
}.

(** The three ways a call of [session.get_] ends for the code: it raises
    (the [except Exception] branches), returns [None] or returns a
    response. *)
Inductive Reply :=
  | Raises
  | NoResponse
  | Responds (con : Response).

(** [session.get_(url, stream=True)] of the [SessionWithKey] in use, as
    the answer the network gives for each url. *)
Definition Session := string → Reply.

(** [name in con.headers] and [con.headers[name]]: header names compare
    without case. *)
Fixpoint headers_get (name : string) (hs : list (string * string)) : option string :=
  match hs with
  | [] => None
  | (k, v) :: hs' =>
      if String.eqb (PyStr.lower k) (PyStr.lower name) then Some v
      else headers_get name hs'
  end.

(** The state a resolution reads and writes: the cache and the list of urls
    requested from the network so far, oldest first. *)
Record World := mkWorld {
  db : Database.t;
  requested : list string;
}.

Definition request (url : string) (w : World) : World :=
  mkWorld (db w) (requested w ++ [url]).

Definition on_db (f : Database.t → Database.t) (w : World) : World :=
  mkWorld (f (db w)) (requested w).

(** A call either returns or raises the named exception. *)
Inductive Outcome (A : Type) :=
  | Returns (a : A)
  | Throws (exn : string).
Global Arguments Returns {A} a.
Global Arguments Throws {A} exn.

(** ** The pattern [isis_ignored] *)

Definition newline : ascii := ascii_of_nat 10.

(** The alternatives of the pattern, each followed by the closing [/]. *)
Definition isis_ignored_alternatives : list string :=
  ((λ m, "mod/" +:+ m +:+ "/") <$>
     ["forum"; "choicegroup"; "assign"; "feedback"; "choice"; "quiz"; "glossary";
      "questionnaire"; "scorm"; "etherpadlite"; "lti"; "h5pactivity";
      "page"; "data"; "ratingallocate"; "book"])
  ++ ["tu-berlin.zoom.us/"; "arm.com/products/"].

(** Whether [pat] matches a prefix of [s]; a dot of the pattern stands for
    any character but a newline. *)
Fixpoint re_prefix (pat s : string) : bool :=
  match pat, s with
  | EmptyString, _ => true
  | String p pat', String a s' =>
      if (Ascii.eqb p "." && negb (Ascii.eqb a newline)) || Ascii.eqb p a
      then re_prefix pat' s' else false
  | String _ _, EmptyString => false
  end.

(** [isis_ignored.match(url) is not None]: some alternative occurs after a
    prefix without newline. *)
Fixpoint isis_ignored_match (url : string) : bool :=
  existsb (λ pat, re_prefix pat url) isis_ignored_alternatives ||
  match url with
  | EmptyString => false
  | String a url' => negb (Ascii.eqb a newline) && isis_ignored_match url'
  end.

(** ** Resolution of external links *)

Module Resolution.
Import PreMediaContainer.

(** The result of [from_dump]: [False], [True] or a container. *)
Inductive Dump :=
  | DumpFalse
  | DumpTrue
  | DumpContainer (container : t).

(** [PreMediaContainer.from_dump] *)
Definition from_dump (url : string) (db : Database.t) : Dump :=
  if bool_decide (url ∈ Database.get_bad_urls db) then DumpFalse
  else
    match Database.get_pre_container_by_url url db with
    | None => DumpTrue
    | Some info => DumpContainer info
    end.

(** Lines 145-148: the download url of a tubcloud link. *)
Definition tubcloud_download (url : string) : string :=
  if PyStr.endswith url "/download" then url else url +:+ "/download".

(** [download_url or url], the url requested by the probe of line 151 and
    the value of [download_url] after lines 159-160. *)
Definition probe_target (url download_url : string) : string :=
  if String.eqb download_url "" then url else download_url.

Section WithEnvironment.
Variable ext : Externals.
Variable session : Session.
(** [int(datetime.now().timestamp())] *)
Variable now : Z.

(** Lines 113-148 of [from_extern_link]: the host-specific choice of
    [download_url]. [None] stands for the early [return None]. *)
Definition pre_resolution (url : string) (w : World) : option string * World :=
  if PyStr.contains "tu-berlin.hosted.exlibrisgroup.com" url then (Some "", w)
  else if PyStr.contains "https://drive.google.com/" url then
    match parse_google_drive_url ext url with
    | None => (None, w)
    | Some drive_id =>
        let temp_url := "https://drive.google.com/uc?id=" +:+ drive_id in
        let w := request temp_url w in
        match session temp_url with
        | Raises => (None, w)
        | NoResponse => (None, w)
        | Responds con =>
            match headers_get "Content-Disposition" (headers con) with
            | Some _ => (Some temp_url, w)
            | None =>
                match get_url_from_gdrive_confirmation ext (text con) with
                | None => (None, w)
                | Some _url => (Some _url, w)
                end
            end
        end
    end
  else if PyStr.contains "tubcloud.tu-berlin.de" url then
    (Some (tubcloud_download url), w)
  else (Some "", w).

(** The test of line 162 on the content type. *)
Definition accepted_content_type (con : Response) : bool :=
  match headers_get "Content-Type" (headers con) with
  | None => false
  | Some ct => PyStr.startswith ct "application/" || PyStr.startswith ct "video/"
  end.

(** Lines 163-185: the container built from an accepted response. *)
Definition build_container (url download_url : string) (course : Course.t)
    (media_type : MediaType) (filename : option string) (con : Response) : Outcome t :=
  let name :=
    match filename with
    | Some filename => filename
    | None =>
        match findall_filename ext (headers con) with
        | n :: _ => n
        | [] => basename url
        end
    end in
  match headers_get "Content-Length" (headers con) with
  | None => Throws "KeyError"
  | Some len =>
      match int_of_str ext len with
      | None => Throws "ValueError"
      | Some size =>
          let relative_location := dir_name ext media_type in
          let location := Course.path_of ext course [sanitize_name ext relative_location] in
          let time :=
            match headers_get "" (headers con) with
            | Some _ =>
                match headers_get "Last-Modified" (headers con) with
                | None => Throws "KeyError"
                | Some lm =>
                    match parsedate_to_timestamp ext lm with
                    | None => Throws "ValueError"
                    | Some t => Returns t
                    end
                end
            | None => Returns now
            end in
          match time with
          | Throws e => Throws e
          | Returns time =>
              let download_url := strip_force_download download_url in
              Returns (mk name url download_url location time
                          (Course.course_id course) media_type size None)
          end
      end
  end.

(** [PreMediaContainer.from_extern_link] *)
Definition from_extern_link (url : string) (course : Course.t)
    (media_type : MediaType) (filename : option string) (w : World)
    : Outcome (option t) * World :=
  match from_dump url (db w) with
  | DumpFalse => (Returns None, w)
  | DumpContainer container => (Returns (Some container), w)
  | DumpTrue =>
      if isis_ignored_match url then (Returns None, on_db (Database.add_bad_url url) w)
      else
        match pre_resolution url w with
        | (None, w) => (Returns None, w)
        | (Some download_url, w) =>
            let w := request (probe_target url download_url) w in
            match session (probe_target url download_url) with
            | Raises => (Returns None, w)
            | NoResponse => (Returns None, on_db (Database.add_bad_url url) w)
            | Responds con =>
                let download_url := probe_target url download_url in
                if accepted_content_type con then
                  match build_container url download_url course media_type filename con with
                  | Throws e => (Throws e, w)
                  | Returns container =>
                      (Returns (Some container), on_db (Database.add_pre_container container) w)
                  end
                else (Returns None, on_db (Database.add_bad_url url) w)
            end
        end
  end.
(** The cases in which the code marks an uncached url as bad: the url
    matches [isis_ignored], or the probe is reached and returns no response
    or a response whose content type is not accepted. *)
Definition marks_bad (url : string) (w : World) : Prop :=
  isis_ignored_match url = true
  ∨ ∃ download_url,
      (pre_resolution url w).1 = Some download_url
      ∧ (session (probe_target url download_url) = NoResponse
         ∨ ∃ con, session (probe_target url download_url) = Responds con
                  ∧ accepted_content_type con = false).

(** The probe is reached and raises. *)
Definition probe_raises (url : string) (w : World) : Prop :=
  isis_ignored_match url = false
  ∧ ∃ download_url,
      (pre_resolution url w).1 = Some download_url
      ∧ session (probe_target url download_url) = Raises.
End WithEnvironment.

(** One call of [from_extern_link] with its environment. *)
Record Call := mkCall {
  call_session : Session;
  call_now : Z;
  call_url : string;
  call_course : Course.t;
  call_media_type : MediaType;
  call_filename : option string;
}.

Definition run_call (ext : Externals) (w : World) (c : Call) : World :=
  (from_extern_link ext (call_session c) (call_now c) (call_url c) (call_course c)
     (call_media_type c) (call_filename c) w).2.

(** The world after a sequence of resolutions. *)
Definition run_calls (ext : Externals) (calls : list Call) (w : World) : World :=
  foldl (run_call ext) w calls.

End Resolution.

(** ** The object store

    Descriptors are mutable objects: the lists built by conflict resolution
    hold references to them, and a renaming is seen through every list. *)
Definition ref := nat.
Definition store := ref → PreMediaContainer.t.

(** ** [check_for_conflicts_in_files] *)

Module Conflicts.
Import PreMediaContainer.

(** [conflicts = defaultdict(list)] filled by the first loop. *)
Definition conflicts (h : store) (files : list ref) : list (string * list ref) :=
  dd_collect (λ item, _name (h item)) files [].

(** The sort key [x.time if x.time is not None else -1]; [time] is an [int]. *)
Definition time_key (h : store) (x : ref) : Z := time (h x).

(** [items]: the name groups that do not have exactly one member, each
    sorted by time. *)
Definition items (h : store) (files : list ref) : list (list ref) :=
  sorted_by (time_key h) <$>
    filter (λ item, length item ≠ 1%nat) (dd_values (conflicts h files)).

(** [locations], after the dict comprehension that keeps the groups with
    more than one member. *)
Definition locations (h : store) (row : list ref) : list (string * list ref) :=
  filter (λ kv, (1 < length kv.2)%nat) (dd_collect (λ item, location (h item)) row []).

(** The new name given to the [i]-th member of a sub-group. *)
Definition new_name (i : nat) (name : string) : string :=
  let '(basename, ext) := splitext name in
  basename +:+ "." +:+ PyStr.str (Z.of_nat i) +:+ ext.

(** The body of the innermost loop. *)
Definition rename_item (i : nat) (item : ref) (h : store) : store :=
  <[item := set_name (new_name i (_name (h item))) (h item)]> h.

(** [for i, item in enumerate(new_row)], counting from [i]. *)
Fixpoint rename_row_from (i : nat) (new_row : list ref) (h : store) : store :=
  match new_row with
  | [] => h
  | item :: rest => rename_row_from (S i) rest (rename_item i item h)
  end.

Definition rename_row (h : store) (new_row : list ref) : store :=
  rename_row_from 0 new_row h.

(** The body of [for row in items]. *)
Definition process_row (h : store) (row : list ref) : store :=
  foldl rename_row h (dd_values (locations h row)).

Definition check_for_conflicts_in_files (files : list ref) (h : store) : store :=
  foldl process_row h (items h files).

(** The store in which the [i]-th descriptor of [l] is object [i]. *)
Definition alloc (l : list t) : store := λ r, l !!! r.

(** Conflict resolution on a list of distinct objects, as [download_content]
    builds it: the descriptors are read back after the pass. *)
Definition resolve (l : list t) : list t :=
  let files := seq 0 (length l) in
  check_for_conflicts_in_files files (alloc l) <$> files.

(** Descriptors that collide on disk: same display name, same directory. *)
Definition collide (a b : t) : Prop := _name a = _name b ∧ location a = location b.

Global Instance collide_dec a b : Decision (collide a b).
Proof. unfold collide. apply _. Defined.

(** The positions of [l] whose descriptor collides with [d], in list order. *)
Definition members (l : list t) (d : t) : list ref :=
  filter (λ r, collide (alloc l r) d) (seq 0 (length l)).

(** The sub-group of [d] in the order in which it is numbered. *)
Definition ordered_members (l : list t) (d : t) : list ref :=
  sorted_by (time_key (alloc l)) (members l d).

(** The references of [files] named [k] with directory [d], as the pass
    sees them: the name group sorted by time, then filtered by directory. *)
Definition subgroup (h : store) (files : list ref) (k d : string) : list ref :=
  filter (λ r, location (h r) = d)
         (sorted_by (time_key h) (filter (λ r, _name (h r) = k) files)).

(** All the sub-groups that are renamed, in the order the pass visits them. *)
Definition new_rows (h : store) (files : list ref) : list (list ref) :=
  concat ((λ row, dd_values (locations h row)) <$> items h files).

(** The invariant the specification states for the result of the pass. *)
Definition no_conflicts (l : list t) : Prop :=
  ∀ i j a b, l !! i = Some a → l !! j = Some b → i ≠ j → ¬ collide a b.

End Conflicts.

(** ** [RequestHelper]: the catalogue and the discovery orchestration *)

Module RequestHelper.

Record t := mk {
  courses : list Course.t;
  _courses : list Course.t;
  course_id_mapping : gmap Z Course.t;
}.

(** One iteration of the loop of [get_courses]. *)
Definition get_courses_step (ext : Externals) (config : Config)
    (self : t) (item : CourseInfo.t) : t :=
  let course := Course.from_dict ext config item in
  mk (if Course.ok config course then courses self ++ [course] else courses self)
     (_courses self ++ [course])
     (<[Course.course_id course := course]> (course_id_mapping self)).

(** [RequestHelper.get_courses], given the response [res] of
    [core_enrol_get_users_courses]. *)
Definition get_courses (ext : Externals) (config : Config)
    (self : t) (res : list CourseInfo.t) : t :=
  let self := foldl (get_courses_step ext config) (mk [] [] (course_id_mapping self)) res in
  mk (sorted Course.lt (courses self))
     (sorted Course.lt (_courses self))
     (course_id_mapping self).

(** Lines 568-573 of [download_content]: the resolved external links go to
    [videos] or are appended to [documents]. *)
Definition split_extern (extern documents : list PreMediaContainer.t)
    : list PreMediaContainer.t * list PreMediaContainer.t :=
  foldl (λ '(videos, documents) thing,
           if decide (PreMediaContainer.media_type thing = video)
           then (videos ++ [thing], documents)
           else (videos, documents ++ [thing]))
        ([], documents) extern.

(** The local function [sort] of [download_content]. *)
Definition sort (lst : list PreMediaContainer.t) : list PreMediaContainer.t :=
  sorted_by_reverse PreMediaContainer.time lst.

(** Lines 553-582 of [download_content], given what the crawl returned:
    the per-course document lists, the assignments and the resolved
    external links. *)
Definition download_content (_documents : list (list PreMediaContainer.t))
    (mod_assign extern : list PreMediaContainer.t) : list PreMediaContainer.t :=
  let documents := concat _documents in
  let '(videos, documents) := split_extern extern documents in
  let all_files := sort (documents ++ mod_assign) ++ sort videos in
  Conflicts.resolve all_files.

End RequestHelper.


(** ** A sample environment

    Concrete helpers, a course and worlds on which the statements below are
    evaluated. *)

Module Sample.

Definition ext : Externals := {|
  sanitize_name := λ s, s;
  path := λ parts, foldr (λ part rest, "/" +:+ part +:+ rest) "" parts;
  dir_name := λ m, match m with document => "" | extern => "Extern" | video => "Videos" end;
  parse_google_drive_url := λ _, None;
  get_url_from_gdrive_confirmation := λ _, None;
  findall_filename := λ _, [];
  int_of_str := λ s, Z.of_int <$> NilZero.int_of_string s;
  parsedate_to_timestamp := λ _, Some 1445412480;
|}.

Definition config : Config := mkConfig None None None true.

Definition course : Course.t := Course.mk "Analysis I" "ana1" "Analysis I" 7.

(** An empty cache and no request so far. *)
Definition world : World := mkWorld (Database.mk ∅ ∅) [].

(** A response that carries a pdf and a [Last-Modified] header. *)
Definition pdf : Response :=
  mkResponse [("Content-Type", "application/pdf"); ("Content-Length", "10");
              ("Last-Modified", "Wed, 21 Oct 2015 07:28:00 GMT")] "".

(** A response that carries a web page. *)
Definition page : Response :=
  mkResponse [("Content-Type", "text/html"); ("Content-Length", "10")] "".

Definition serves (con : Response) : Session := λ _, Responds con.
Definition unreachable : Session := λ _, Raises.
Definition silent : Session := λ _, NoResponse.

End Sample.

(** ** External links *)

Module ExternalLink.

(** [ExternalLink = namedtuple("ExternalLink", "url course media_type name")] *)
Record t := mk {
  url : string;
  course : Course.t;
  media_type : MediaType;
  name : option string;
}.

(** Equality of two links as tuples: item by item, the courses by
    [Course.__eq__]. *)
Definition eq (a b : t) : bool :=
  String.eqb (url a) (url b)
  && Course.eq (course a) (Course.PyCourse (course b))
  && bool_decide (media_type a = media_type b)
  && bool_decide (name a = name b).

(** [external_links.add(x)] on the set [external_links], kept as the list of
    its elements: an element equal to [x] keeps its place, otherwise [x]
    joins.  The order of the list is the order of insertion, which is not
    the order in which Python iterates over the set. *)
Definition add (x : t) (external_links : list t) : list t :=
  if existsb (eq x) external_links then external_links else external_links ++ [x].

(** [external_links.update(xs)] *)
Definition update (xs : list t) (external_links : list t) : list t :=
  foldl (λ acc x, add x acc) external_links xs.

End ExternalLink.

(** ** The crawl of one course *)

Module Crawl.

(** What the crawl reads besides [Config] and [Externals]: two more fields
    of [config], the set [bad_urls] of [isisdl.backend.utils] and three
    library functions. *)
Record Env := mkEnv {
  (** [config.follow_links] *)
  config_follow_links : bool;
  (** [config.download_videos], [false] standing for [False] *)
  config_download_videos : bool;
  (** [utils.bad_urls] *)
  utils_bad_urls : gset string;
  (** [url_finder.findall] *)
  url_finder_findall : string → list string;
  (** whether [urlparse(link)] has a scheme and a netloc *)
  urlparse_scheme_netloc : string → bool;
  (** [str.strip()] *)
  str_strip : string → string;
}.

Definition ignored_urls : list string :=
  ["https://isis.tu-berlin.de/mod/resource/view.php?id=756880";
   "https://isis.tu-berlin.de/mod/resource/view.php?id=910864"].

(** One video of the [mod_videoservice_get_videos] answer. *)
Record Video := mkVideo {
  video_url : string;
  title : string;
  fileext : string;
}.

(** [videos_res.json()[0]]; [videos] is its [["data"]["videos"]]. *)
Record VideosJson := mkVideosJson {
  error : bool;
  videos : list Video;
}.

(** An entry of [module["contents"]] or of [assignment["introattachments"]].
    [file_type] is the optional key [type]; the other keys are read without
    a test, and [filepath] may hold [None]. *)
Record File := mkFile {
  file_type : option string;
  fileurl : string;
  filename : string;
  timemodified : Z;
  filepath : option string;
  filesize : Z;
}.

(** A module of a week; its three keys are optional. *)
Record CourseModule := mkCourseModule {
  description : option string;
  module_url : option string;
  contents : option (list File);
}.

Record Week := mkWeek {
  modules : list CourseModule;
}.

(** [Course.download_videos], given the answer [videos_res] of the video
    service ([None] when [s.get_] returns [None]). *)
Definition download_videos (env : Env) (videos_res : option VideosJson)
    (self : Course.t) (external_links : list ExternalLink.t) : list ExternalLink.t :=
  if negb (config_download_videos env) then external_links
  else
    match videos_res with
    | None => external_links
    | Some videos_json =>
        if error videos_json then external_links
        else
          ExternalLink.update
            ((λ item, ExternalLink.mk (video_url item) self video
                        (Some (str_strip env (title item) +:+ fileext item)))
               <$> videos videos_json)
            external_links
    end.

(** The body of [for link in links] (lines 327-333). *)
Definition description_link (env : Env) (self : Course.t)
    (external_links : list ExternalLink.t) (link : string) : list ExternalLink.t :=
  if bool_decide (link ∈ ignored_urls) || bool_decide (link ∈ utils_bad_urls env)
  then external_links
  else if urlparse_scheme_netloc env link && config_follow_links env
  then ExternalLink.add (ExternalLink.mk link self extern None) external_links
  else external_links.

(** The body of [for file in module["contents"]] (lines 361-367), on the
    pair of [all_content] and [external_links]. *)
Definition content_file (ext : Externals) (config : Config) (env : Env) (self : Course.t)
    (st : list PreMediaContainer.t * list ExternalLink.t) (file : File)
    : list PreMediaContainer.t * list ExternalLink.t :=
  if config_follow_links env && bool_decide (file_type file = Some "url")
  then (st.1, ExternalLink.add (ExternalLink.mk (fileurl file) self extern None) st.2)
  else if bool_decide (fileurl file ∈ utils_bad_urls env) then st
  else (st.1 ++ [PreMediaContainer.document_from_api ext config (filename file)
                   (fileurl file) (fileurl file) self (timemodified file)
                   (filepath file) (filesize file)],
        st.2).

(** The body of [for module in week["modules"]] (lines 325-373); the logged
    messages are not modelled. *)
Definition course_module (ext : Externals) (config : Config) (env : Env) (self : Course.t)
    (st : list PreMediaContainer.t * list ExternalLink.t) (module : CourseModule)
    : list PreMediaContainer.t * list ExternalLink.t :=
  let external_links :=
    match description module with
    | Some text => foldl (description_link env self) st.2 (url_finder_findall env text)
    | None => st.2
    end in
  match module_url module with
  | None => (st.1, external_links)
  | Some url =>
      if bool_decide (url ∈ ignored_urls) || bool_decide (url ∈ utils_bad_urls env)
      then (st.1, external_links)
      else if isis_ignored_match url then (st.1, external_links)
      else
        match contents module with
        | None => (st.1, external_links)
        | Some files => foldl (content_file ext config env self) (st.1, external_links) files
        end
  end.

(** [Course.download_documents], given the answer [content] of
    [core_course_get_contents] ([None] when [post_REST] returns [None]);
    it returns [all_content] and leaves [external_links] updated. *)
Definition download_documents (ext : Externals) (config : Config) (env : Env)
    (content : option (list Week)) (self : Course.t)
    (external_links : list ExternalLink.t)
    : list PreMediaContainer.t * list ExternalLink.t :=
  match content with
  | None => ([], external_links)
  | Some weeks =>
      foldl (λ st week, foldl (course_module ext config env self) st (modules week))
            ([], external_links) weeks
  end.

(** The documents that [download_documents] keeps of one module: none if
    the module has no url, an ignored url or no contents; else its files
    but the link-type ones (when links are followed) and the bad ones. *)
Definition kept_files (env : Env) (module : CourseModule) : list File :=
  match module_url module, contents module with
  | Some url, Some files =>
      if bool_decide (url ∈ ignored_urls) || bool_decide (url ∈ utils_bad_urls env)
         || isis_ignored_match url
      then []
      else filter (λ file,
                     ¬ (config_follow_links env = true ∧ file_type file = Some "url")
                     ∧ fileurl file ∉ utils_bad_urls env) files
  | _, _ => []
  end.

(** One assignment and the assignments of one course, as
    [mod_assign_get_assignments] returns them. *)
Record Assignment := mkAssignment {
  assignment_name : string;
  introattachments : list File;
}.

Record AssignmentCourse := mkAssignmentCourse {
  assignment_course_id : Z;
  assignments : list Assignment;
}.

(** [RequestHelper.download_mod_assign], given [self.courses] and the
    [["courses"]] of the answer ([None] when [post_REST] returns [None]). *)
Definition download_mod_assign (ext : Externals) (config : Config)
    (courses : list Course.t) (_assignments : option (list AssignmentCourse))
    : list PreMediaContainer.t :=
  match _assignments with
  | None => []
  | Some assignment_courses =>
      let allowed_ids := Course.course_id <$> courses in
      foldl
        (λ all_content _course,
           match List.find (λ item, bool_decide (Course.course_id item
                                                 = assignment_course_id _course)) courses with
           | None => all_content
           | Some course =>
               if bool_decide (assignment_course_id _course ∈ allowed_ids)
               then
                 foldl
                   (λ all_content assignment,
                      foldl
                        (λ all_content file,
                           all_content ++
                             [PreMediaContainer.document_from_api ext config (filename file)
                                (fileurl file) (fileurl file) course (timemodified file)
                                (Some (assignment_name assignment)) (filesize file)])
                        all_content (introattachments assignment))
                   all_content (assignments _course)
               else all_content
           end)
        [] assignment_courses
  end.

(** Lines 617 and 622-624: without threads ([enable_multithread] off),
    [RequestHelper.download_extern] calls [add_extern_link] for each link
    in turn, in the order in which the set yields them; [env_of] gives the
    session's answers and the clock at the time a link is resolved.  An
    exception of [from_extern_link] ends the loop.  The branch with the
    thread pool (lines 619-621) is not part of this definition. *)
Fixpoint download_extern_sequential (ext : Externals) (env_of : ExternalLink.t → Session * Z)
    (external_links : list ExternalLink.t) (all_content : list PreMediaContainer.t)
    (w : World) : Outcome (list PreMediaContainer.t) * World :=
  match external_links with
  | [] => (Returns all_content, w)
  | link :: rest =>
      match Resolution.from_extern_link ext (env_of link).1 (env_of link).2
              (ExternalLink.url link) (ExternalLink.course link)
              (ExternalLink.media_type link) (ExternalLink.name link) w with
      | (Throws e, w) => (Throws e, w)
      | (Returns None, w) => download_extern_sequential ext env_of rest all_content w
      | (Returns (Some container), w) =>
          download_extern_sequential ext env_of rest (all_content ++ [container]) w
      end
  end.

(** Lines 549-551: without threads, [download_content] calls
    [download_documents] for each course in turn, and not
    [download_videos].  [content_of] is the answer for each course. *)
Definition documents_sequential (ext : Externals) (config : Config) (env : Env)
    (content_of : Course.t → option (list Week)) (courses : list Course.t)
    (external_links : list ExternalLink.t)
    : list (list PreMediaContainer.t) * list ExternalLink.t :=
  foldl (λ st course,
           let r := download_documents ext config env (content_of course) course st.2 in
           (st.1 ++ [r.1], r.2))
        ([], external_links) courses.

End Crawl.

(** ** Reading the crawl *)

Module CrawlSpec.
Import Crawl.

(** The descriptor built for a file of a module (line 367). *)
Definition document_of (ext : Externals) (config : Config) (self : Course.t)
    (file : File) : PreMediaContainer.t :=
  PreMediaContainer.document_from_api ext config (filename file) (fileurl file)
    (fileurl file) self (timemodified file) (filepath file) (filesize file).

(** The descriptor built for an attachment of an assignment (line 603). *)
Definition attachment_of (ext : Externals) (config : Config) (course : Course.t)
    (assignment : Assignment) (file : File) : PreMediaContainer.t :=
  PreMediaContainer.document_from_api ext config (filename file) (fileurl file)
    (fileurl file) course (timemodified file) (Some (assignment_name assignment))
    (filesize file).

(** A link that the crawl of [self] adds for a url found in course content. *)
Definition content_link (self : Course.t) (link : ExternalLink.t) : Prop :=
  ExternalLink.course link = self
  ∧ ExternalLink.media_type link = extern
  ∧ ExternalLink.name link = None.

(** What the crawl of [self] adds: content links, and only when links are
    followed. *)
Definition crawl_added (env : Env) (self : Course.t) (link : ExternalLink.t) : Prop :=
  content_link self link ∧ config_follow_links env = true.

(** The modules of an answer of [core_course_get_contents], in order. *)
Definition all_modules (weeks : list Week) : list CourseModule :=
  concat (modules <$> weeks).

(** The cached container of a link, if its url is cached and not marked. *)
Definition cached (d : Database.t) (link : ExternalLink.t) : option PreMediaContainer.t :=
  if bool_decide (ExternalLink.url link ∈ Database.bad_urls d) then None
  else Database.pre_containers d !! ExternalLink.url link.

End CrawlSpec.

(** ** A sample course content *)

Module CrawlSample.
Import Crawl.

(** An environment in which every description is one url. *)
Definition env (follow_links : bool) : Env := {|
  config_follow_links := follow_links;
  config_download_videos := true;
  utils_bad_urls := ∅;
  url_finder_findall := λ text, [text];
  urlparse_scheme_netloc := λ _, true;
  str_strip := λ s, s;
|}.

Definition slides : File :=
  mkFile None "https://isis.tu-berlin.de/webservice/pluginfile.php/1/slides.pdf?forcedownload=1"
         "slides.pdf" 1600000000 (Some "/") 1024.

Definition weblink : File :=
  mkFile (Some "url") "https://example.org/paper" "paper" 1600000001 None 0.

(** A forum, which the crawl ignores, with a url in its description. *)
Definition forum : CourseModule :=
  mkCourseModule (Some "https://example.org/rules")
                 (Some "https://isis.tu-berlin.de/mod/forum/view.php?id=3") None.

Definition resource : CourseModule :=
  mkCourseModule None (Some "https://isis.tu-berlin.de/mod/resource/view.php?id=5")
                 (Some [slides; weblink]).

Definition weeks : list Week := [mkWeek [forum; resource]].

(** The assignments of the sample course and of a course that is not
    enrolled. *)
Definition sheet : Assignment := mkAssignment "Sheet 1" [slides].

Definition assignment_courses : list AssignmentCourse :=
  [mkAssignmentCourse 7 [sheet]; mkAssignmentCourse 8 [sheet]].

End CrawlSample.

(** ** Reading the discovery *)

Module DiscoverySpec.
Import Crawl.

(** The link that [download_videos] builds for a video of course [self]. *)
Definition video_link (env : Env) (self : Course.t) (item : Video) : ExternalLink.t :=
  ExternalLink.mk (video_url item) self video
    (Some (str_strip env (title item) +:+ fileext item)).

(** The course of [courses] that [download_mod_assign] picks for an entry
    of the answer: the first one with the id of the entry. *)
Definition course_of (courses : list Course.t) (entry : AssignmentCourse) : option Course.t :=
  List.find (λ item, bool_decide (Course.course_id item = assignment_course_id entry)) courses.

(** The descriptors of the attachments of an entry, in order. *)
Definition attachments_of (ext : Externals) (config : Config) (courses : list Course.t)
    (entry : AssignmentCourse) : list PreMediaContainer.t :=
  match course_of courses entry with
  | None => []
  | Some course =>
      concat ((λ assignment,
                 CrawlSpec.attachment_of ext config course assignment
                   <$> introattachments assignment) <$> assignments entry)
  end.

(** The documents of one course, crawled on its own. *)
Definition documents_of (ext : Externals) (config : Config) (env : Env)
    (content_of : Course.t → option (list Week)) (course : Course.t)
    : list PreMediaContainer.t :=
  (download_documents ext config env (content_of course) course []).1.

End DiscoverySpec.

(** ** The directory of a platform document, in closed form *)

Module DocumentSpec.

(** The sub-directory of the course directory in which a document is put:
    the given one without the slashes around it, or none when
    sub-directories are switched off, and [Videos] below it for a
    video-service url. *)
Definition folder (config : Config) (url : string) (relative_location : option string)
    : string :=
  let rel :=
    if make_subdirs config then PyStr.strip "/" (default "" relative_location) else "" in
  if PyStr.contains "mod/videoservice/file.php" url
  then (if String.eqb rel "" then "Videos" else rel +:+ "/Videos")
  else rel.

End DocumentSpec.

(** ** Characters of a string *)

Module Chars.

(** [c in s] for a character [c]. *)
Fixpoint occurs (c : ascii) (s : string) : bool :=
  match s with
  | EmptyString => false
  | String a s' => Ascii.eqb a c || occurs c s'
  end.

End Chars.

(** * Properties *)

(** ** Strings *)

Lemma app_String (a : ascii) (s t : string) : String a s +:+ t = String a (s +:+ t).
Proof. reflexivity. Qed.

Lemma app_empty_r (s : string) : s +:+ "" = s.
Proof. induction s as [|a s IH]; [done|]. by rewrite app_String, IH. Qed.

Lemma take_drop (n : nat) (s : string) : PyStr.take n s +:+ PyStr.drop n s = s.
Proof.
  revert s. induction n as [|n IH]; intros [|a s]; simpl; try reflexivity.
  by rewrite app_String, IH.
Qed.

Lemma string_length_app (s1 s2 : string) :
  String.length (s1 +:+ s2) = (String.length s1 + String.length s2)%nat.
Proof.
  induction s1 as [|a s1 IH]; [done|]. rewrite app_String. simpl. by rewrite IH.
Qed.

(** The two parts returned by [splitext] make up the path. *)
Lemma splitext_app (p : string) : (splitext p).1 +:+ (splitext p).2 = p.
Proof.
  unfold splitext. case_match; simpl.
  - apply take_drop.
  - apply app_empty_r.
Qed.

Lemma to_int_nonnil (z : Z) :
  Z.to_int z ≠ Decimal.Pos Decimal.Nil ∧ Z.to_int z ≠ Decimal.Neg Decimal.Nil.
Proof.
  destruct z as [|p|p]; simpl; split; try discriminate;
    intros [= H]; by apply Unsigned.to_uint_nonnil in H.
Qed.

(** [str] is injective on integers. *)
Lemma str_inj (x y : Z) : PyStr.str x = PyStr.str y → x = y.
Proof.
  unfold PyStr.str. intros H. apply to_int_inj.
  destruct (to_int_nonnil x) as [Hx1 Hx2], (to_int_nonnil y) as [Hy1 Hy2].
  pose proof (NilZero.isi _ Hx1 Hx2) as Ex. pose proof (NilZero.isi _ Hy1 Hy2) as Ey.
  rewrite H in Ex. congruence.
Qed.

(** A renamed file never keeps its name: the new name is longer. *)
Lemma new_name_length (i : nat) (name : string) :
  (String.length name < String.length (Conflicts.new_name i name))%nat.
Proof.
  unfold Conflicts.new_name.
  pose proof (splitext_app name) as H. destruct (splitext name) as [b e]; simpl in H.
  rewrite <- H at 1. rewrite !string_length_app. simpl. lia.
Qed.

Lemma new_name_neq (i : nat) (name : string) : Conflicts.new_name i name ≠ name.
Proof.
  intros H. pose proof (new_name_length i name) as Hl. rewrite H in Hl. lia.
Qed.

(** ** [sorted] *)

Section SortedFacts.
Context {A : Type} (lt : A → A → bool).

Lemma sorted_insert_perm (x : A) (l : list A) : sorted_insert lt x l ≡ₚ x :: l.
Proof.
  induction l as [|y l IH]; simpl; [done|].
  destruct (lt y x); [|done]. rewrite IH. apply Permutation_swap.
Qed.

Lemma sorted_perm (l : list A) : sorted lt l ≡ₚ l.
Proof.
  induction l as [|x l IH]; simpl; [done|].
  rewrite sorted_insert_perm. by f_equiv.
Qed.

Lemma sorted_reverse_perm (l : list A) : sorted_reverse lt l ≡ₚ l.
Proof. unfold sorted_reverse. by rewrite reverse_Permutation, sorted_perm, reverse_Permutation. Qed.

Lemma sorted_length (l : list A) : length (sorted lt l) = length l.
Proof. by rewrite sorted_perm. Qed.
End SortedFacts.

Section SortedByFacts.
Context {A : Type} (key : A → Z).

Lemma sorted_insert_ascending (x : A) (l : list A) :
  StronglySorted (ascending key) l → StronglySorted (ascending key) (sorted_insert (key_lt key) x l).
Proof.
  induction 1 as [|y l Hl IH Hy]; simpl.
  - repeat constructor.
  - unfold key_lt at 1. destruct (Z.ltb_spec (key y) (key x)) as [Hlt|Hge].
    + constructor; [done|].
      rewrite sorted_insert_perm. constructor; [unfold ascending; lia | done].
    + constructor; [by constructor|].
      constructor; [done|]. eapply Forall_impl; [exact Hy|].
      unfold ascending. intros z Hz. lia.
Qed.

Lemma sorted_by_ascending (l : list A) : StronglySorted (ascending key) (sorted_by key l).
Proof.
  induction l as [|x l IH]; simpl; [constructor|].
  by apply sorted_insert_ascending.
Qed.

Lemma reverse_ascending (l : list A) :
  StronglySorted (ascending key) l → StronglySorted (descending key) (reverse l).
Proof.
  induction 1 as [|y l Hl IH Hy]; [constructor|].
  rewrite reverse_cons. apply StronglySorted_app_2; [|done|repeat constructor].
  intros a b Ha Hb. apply list_elem_of_singleton in Hb as ->.
  rewrite elem_of_reverse in Ha. rewrite Forall_forall in Hy. by apply Hy.
Qed.

Lemma sorted_by_reverse_descending (l : list A) :
  StronglySorted (descending key) (sorted_by_reverse key l).
Proof. apply reverse_ascending, sorted_by_ascending. Qed.

(** Inserting below every key puts the element in front. *)
Lemma sorted_insert_head (x : A) (l : list A) :
  Forall (ascending key x) l → sorted_insert (key_lt key) x l = x :: l.
Proof.
  destruct 1 as [|y l Hy _]; simpl; [done|].
  unfold key_lt, ascending in *. destruct (Z.ltb_spec (key y) (key x)); [lia|done].
Qed.

Lemma filter_sorted_insert (P : A → Prop) `{∀ x, Decision (P x)} (x : A) (l : list A) :
  StronglySorted (ascending key) l →
  filter P (sorted_insert (key_lt key) x l) =
    if decide (P x) then sorted_insert (key_lt key) x (filter P l) else filter P l.
Proof.
  induction 1 as [|y l Hl IH Hy]; simpl.
  - rewrite filter_cons, filter_nil. by destruct (decide (P x)).
  - unfold key_lt at 1 3. destruct (Z.ltb_spec (key y) (key x)) as [Hlt|Hge].
    + rewrite !filter_cons, IH.
      destruct (decide (P y)), (decide (P x)); simpl; try done.
      unfold key_lt. by destruct (Z.ltb_spec (key y) (key x)); [|lia].
    + rewrite !filter_cons.
      destruct (decide (P x)), (decide (P y)); simpl; try done.
      * unfold key_lt. by destruct (Z.ltb_spec (key y) (key x)); [lia|].
      * symmetry. apply sorted_insert_head.
        apply Forall_forall. intros z Hz. apply list_elem_of_filter in Hz as [_ Hz].
        rewrite Forall_forall in Hy. specialize (Hy z Hz). unfold ascending in *. lia.
Qed.

(** A stable sort commutes with filtering. *)
Lemma filter_sorted_by (P : A → Prop) `{∀ x, Decision (P x)} (l : list A) :
  filter P (sorted_by key l) = sorted_by key (filter P l).
Proof.
  induction l as [|x l IH]; simpl; [done|].
  unfold sorted_by in *. simpl.
  rewrite filter_sorted_insert by apply sorted_by_ascending.
  rewrite filter_cons. destruct (decide (P x)); simpl; by rewrite IH.
Qed.

Lemma sorted_by_perm (l : list A) : sorted_by key l ≡ₚ l.
Proof. apply sorted_perm. Qed.

Lemma sorted_by_reverse_perm (l : list A) : sorted_by_reverse key l ≡ₚ l.
Proof. apply sorted_reverse_perm. Qed.
End SortedByFacts.

(** ** Courses: equality, order and the catalogue *)

Lemma str_not_False (z : Z) : PyStr.str z ≠ "False".
Proof.
  unfold PyStr.str. intros H.
  destruct (to_int_nonnil z) as [H1 H2].
  pose proof (NilZero.isi _ H1 H2) as E. rewrite H in E. discriminate E.
Qed.

Lemma str_not_True (z : Z) : PyStr.str z ≠ "True".
Proof.
  unfold PyStr.str. intros H.
  destruct (to_int_nonnil z) as [H1 H2].
  pose proof (NilZero.isi _ H1 H2) as E. rewrite H in E. discriminate E.
Qed.

Lemma ok_included (config : Config) (c : Course.t) :
  Course.ok config c = true ↔ Course.included config c.
Proof.
  unfold Course.ok, Course.included.
  destruct (whitelist config) as [wl|], (blacklist config) as [bl|].
  - rewrite andb_true_iff, negb_true_iff, bool_decide_eq_true, bool_decide_eq_false. done.
  - by rewrite bool_decide_eq_true.
  - by rewrite negb_true_iff, bool_decide_eq_false.
  - done.
Qed.

Lemma get_courses_loop (ext : Externals) (config : Config)
    (acc : RequestHelper.t) (res : list CourseInfo.t) :
  let st := foldl (RequestHelper.get_courses_step ext config) acc res in
  RequestHelper._courses st =
    RequestHelper._courses acc ++ (Course.from_dict ext config <$> res)
  ∧ RequestHelper.courses st =
    RequestHelper.courses acc ++
      filter (λ c, Course.ok config c = true) (Course.from_dict ext config <$> res).
Proof.
  revert acc. induction res as [|item res IH]; intros acc; simpl.
  - by rewrite !app_nil_r.
  - destruct (IH (RequestHelper.get_courses_step ext config acc item)) as [-> ->].
    simpl. rewrite filter_cons. split.
    + by rewrite <- app_assoc.
    + destruct (Course.ok config (Course.from_dict ext config item)) eqn:E.
      * rewrite decide_True by done. by rewrite <- app_assoc.
      * rewrite decide_False by done. done.
Qed.

(** C1. For every configuration of the two lists and every enumerated course
    list, [_courses] holds the enumerated courses and [courses] those of
    them that the policy includes, so [courses] is a subset of [_courses];
    both are sorted by ascending [course_id]; a course is included exactly
    per the four cases, and an id on both lists is excluded. *)
Theorem get_courses_policy (ext : Externals) (config : Config)
    (self : RequestHelper.t) (res : list CourseInfo.t) :
  let st := RequestHelper.get_courses ext config self res in
  RequestHelper._courses st ≡ₚ (Course.from_dict ext config <$> res)
  ∧ RequestHelper.courses st =
      filter (λ c, Course.ok config c = true) (RequestHelper._courses st)
  ∧ (∀ c, c ∈ RequestHelper.courses st ↔
          c ∈ RequestHelper._courses st ∧ Course.included config c)
  ∧ RequestHelper.courses st ⊆ RequestHelper._courses st
  ∧ StronglySorted (ascending Course.course_id) (RequestHelper._courses st)
  ∧ StronglySorted (ascending Course.course_id) (RequestHelper.courses st)
  ∧ (Course.included config =
       match whitelist config, blacklist config with
       | None, None => λ _, True
       | None, Some bl => λ c, Course.course_id c ∉ bl
       | Some wl, None => λ c, Course.course_id c ∈ wl
       | Some wl, Some bl => λ c, Course.course_id c ∈ wl ∧ Course.course_id c ∉ bl
       end)
  ∧ (∀ o n m rc ms,
       Course.ok (mkConfig (Some [5]) (Some [5]) rc ms) (Course.mk o n m 5) = false).
Proof.
  intros st. subst st. unfold RequestHelper.get_courses.
  destruct (get_courses_loop ext config
              (RequestHelper.mk [] [] (RequestHelper.course_id_mapping self)) res)
    as [Hall Hok].
  simpl in Hall, Hok. simpl. rewrite Hall, Hok.
  change (sorted Course.lt) with (sorted_by Course.course_id).
  assert (Hfilter : sorted_by Course.course_id
            (filter (λ c, Course.ok config c = true) (Course.from_dict ext config <$> res))
          = filter (λ c, Course.ok config c = true)
              (sorted_by Course.course_id (Course.from_dict ext config <$> res))).
  { by rewrite filter_sorted_by. }
  split; [apply sorted_by_perm|].
  split; [done|].
  split.
  { intros c. rewrite Hfilter, list_elem_of_filter, ok_included. tauto. }
  split.
  { intros c. rewrite Hfilter, list_elem_of_filter. tauto. }
  split; [apply sorted_by_ascending|].
  split; [apply sorted_by_ascending|].
  split.
  { unfold Course.included. by destruct (whitelist config), (blacklist config). }
  intros. reflexivity.
Qed.

(** C9, as the code has it.  Two courses are equal iff their ids are equal;
    a course equals an [int] or a [str] iff that is its id or the decimal
    rendering of its id; besides, a course equals the constant [True]
    whatever its id, and nothing else.  A course is less than another iff
    its id is smaller, and its hash is its id. *)
Theorem course_eq_lt_hash (c : Course.t) :
  (∀ other, Course.eq c other = true ↔
            other = Course.PyBool true ∨ Course.determined_by_id c other)
  ∧ (∀ c', Course.eq c (Course.PyCourse c') = true ↔
           Course.course_id c = Course.course_id c')
  ∧ (∀ c', Course.lt c c' = true ↔ Course.course_id c < Course.course_id c')
  ∧ Course.hash c = Course.course_id c.
Proof.
  split; [|split; [|split]].
  - intros other. unfold Course.determined_by_id. split.
    + destruct other as [[|]|z|s| |c'|cls]; simpl; intros H; try discriminate.
      * by left.
      * apply String.eqb_eq in H. by apply str_not_False in H.
      * apply String.eqb_eq, str_inj in H. subst. right; right; by left.
      * apply String.eqb_eq in H. subst. right; right; by right.
      * apply bool_decide_eq_true in H. right; left. by exists c'.
    + intros [->|[(c' & -> & Hid)|[->| ->]]]; simpl.
      * done.
      * by apply bool_decide_eq_true.
      * apply String.eqb_refl.
      * apply String.eqb_refl.
  - intros c'. simpl. apply bool_decide_eq_true.
  - intros c'. unfold Course.lt. apply Z.ltb_lt.
  - reflexivity.
Qed.

(** C9 as stated fails: the constant [True] equals a course although it is
    not determined by the course's id. *)
Lemma course_eq_True_counterexample :
  ¬ (∀ c other, Course.eq c other = true → Course.determined_by_id c other).
Proof.
  intros H.
  destruct (H (Course.mk "" "" "" 5) (Course.PyBool true) eq_refl)
    as [(c' & Hc & _)|[Hc|Hc]]; discriminate Hc.
Qed.

(** ** [defaultdict(list)] *)

Section DefaultDictFacts.
Context {K V : Type} `{EqDecision K}.
Implicit Types (d : list (K * list V)) (k : K) (x : V) (l g : list V).

Lemma dd_get_append k' k x d :
  dd_get k' (dd_append k x d) =
    if decide (k' = k) then dd_get k d ++ [x] else dd_get k' d.
Proof.
  induction d as [|[k0 g] d IH]; simpl.
  - by repeat case_decide.
  - destruct (decide (k = k0)) as [->|Hne]; simpl.
    + repeat case_decide; congruence.
    + rewrite IH. repeat case_decide; congruence.
Qed.

Lemma dd_keys_append k x d :
  (dd_append k x d).*1 = if decide (k ∈ d.*1) then d.*1 else d.*1 ++ [k].
Proof.
  induction d as [|[k0 g] d IH].
  - case_decide as Hin; [by apply elem_of_nil in Hin|done].
  - rewrite fmap_cons. cbn [dd_append fst].
    destruct (decide (k = k0)) as [->|Hne]; rewrite fmap_cons; cbn [fst].
    + rewrite decide_True; [done|]. apply list_elem_of_here.
    + rewrite IH. destruct (decide (k ∈ d.*1)) as [Hin|Hnin].
      * rewrite decide_True; [done|]. by apply list_elem_of_further.
      * rewrite decide_False; [done|]. rewrite elem_of_cons. tauto.
Qed.

Lemma dd_keys_append_NoDup k x d : NoDup d.*1 → NoDup (dd_append k x d).*1.
Proof.
  intros Hd. rewrite dd_keys_append. case_decide; [done|].
  apply NoDup_app. split; [done|]. split; [|apply NoDup_singleton].
  intros k' Hk' ->%list_elem_of_singleton. done.
Qed.

Lemma dd_values_append_perm k x d :
  concat (dd_values (dd_append k x d)) ≡ₚ x :: concat (dd_values d).
Proof.
  unfold dd_values. induction d as [|[k0 g] d IH]; simpl; [done|].
  destruct (decide (k = k0)) as [->|Hne]; simpl.
  - rewrite <- app_assoc. simpl. by rewrite <- Permutation_middle.
  - rewrite IH. by rewrite <- Permutation_middle.
Qed.

Section Collect.
Context (key : V → K).

Lemma dd_collect_cons x l d :
  dd_collect key (x :: l) d = dd_collect key l (dd_append (key x) x d).
Proof. reflexivity. Qed.

Lemma dd_collect_get l d k :
  dd_get k (dd_collect key l d) = dd_get k d ++ filter (λ x, key x = k) l.
Proof.
  revert d. induction l as [|x l IH]; intros d.
  - by rewrite app_nil_r.
  - rewrite dd_collect_cons, IH, dd_get_append, filter_cons.
    destruct (decide (k = key x)) as [->|Hne].
    + rewrite decide_True by done. by rewrite <- app_assoc.
    + rewrite decide_False by congruence. done.
Qed.

Lemma dd_collect_keys_NoDup l d : NoDup d.*1 → NoDup (dd_collect key l d).*1.
Proof.
  revert d. induction l as [|x l IH]; intros d Hd; [done|].
  rewrite dd_collect_cons. by apply IH, dd_keys_append_NoDup.
Qed.

Lemma dd_collect_keys l d k :
  k ∈ (dd_collect key l d).*1 ↔ k ∈ d.*1 ∨ k ∈ key <$> l.
Proof.
  revert d. induction l as [|x l IH]; intros d.
  - simpl. rewrite elem_of_nil. tauto.
  - rewrite dd_collect_cons, IH, dd_keys_append, fmap_cons, elem_of_cons.
    case_decide as Hin.
    + split; [tauto|]. intros [?|[->|?]]; tauto.
    + rewrite elem_of_app, list_elem_of_singleton. tauto.
Qed.

Lemma dd_collect_perm l d :
  concat (dd_values (dd_collect key l d)) ≡ₚ concat (dd_values d) ++ l.
Proof.
  revert d. induction l as [|x l IH]; intros d.
  - by rewrite app_nil_r.
  - rewrite dd_collect_cons, IH, dd_values_append_perm.
    by rewrite <- Permutation_middle.
Qed.
End Collect.

Lemma dd_elem_of_get d k g :
  NoDup d.*1 → (k, g) ∈ d ↔ k ∈ d.*1 ∧ dd_get k d = g.
Proof.
  induction d as [|[k0 g0] d IH]; simpl; intros Hd.
  - rewrite !elem_of_nil. tauto.
  - apply NoDup_cons in Hd as [Hk0 Hd]. rewrite !elem_of_cons, (IH Hd).
    destruct (decide (k = k0)) as [->|Hne].
    + split.
      * intros [[= <-]|[Hin _]]; [tauto|done].
      * intros [_ <-]. by left.
    + split.
      * intros [[= ? ?]|[Hin Hg]]; [done|tauto].
      * intros [[?|Hin] Hg]; [done|tauto].
Qed.

(** The group stored for a key holds the elements with that key, in the
    order of the list. *)
Lemma dd_collect_group (key : V → K) l k g :
  (k, g) ∈ dd_collect key l [] → g = filter (λ x, key x = k) l ∧ k ∈ key <$> l.
Proof.
  intros Hin. apply dd_elem_of_get in Hin as [Hk Hg].
  - rewrite dd_collect_get in Hg. simpl in Hg. split; [done|].
    apply dd_collect_keys in Hk as [Hk|Hk]; [by apply elem_of_nil in Hk|done].
  - apply dd_collect_keys_NoDup. constructor.
Qed.

Lemma dd_collect_elem_of (key : V → K) l x :
  x ∈ l → (key x, filter (λ y, key y = key x) l) ∈ dd_collect key l [].
Proof.
  intros Hx. apply dd_elem_of_get.
  - apply dd_collect_keys_NoDup. constructor.
  - split.
    + apply dd_collect_keys. right. by apply list_elem_of_fmap_2.
    + by rewrite dd_collect_get.
Qed.

Lemma dd_collect_values_perm (key : V → K) l :
  concat (dd_values (dd_collect key l [])) ≡ₚ l.
Proof. by rewrite dd_collect_perm. Qed.
End DefaultDictFacts.

(** ** Conflict resolution on the store *)

Section SortedStable.
Context {A : Type} (key : A → Z) (R : relation A).

Lemma sorted_insert_stable (x : A) (l : list A) :
  Forall (R x) l →
  StronglySorted (key_then key R) l →
  StronglySorted (key_then key R) (sorted_insert (key_lt key) x l).
Proof.
  intros Hx Hl. induction Hl as [|y l Hl IH Hy]; simpl.
  - repeat constructor.
  - apply Forall_cons in Hx as [Hxy Hx].
    unfold key_lt at 1. destruct (Z.ltb_spec (key y) (key x)) as [Hlt|Hge].
    + constructor; [by apply IH|].
      rewrite sorted_insert_perm. constructor; [by left|done].
    + constructor; [by constructor|].
      constructor.
      * unfold key_then. destruct (Z.eq_dec (key x) (key y)); [right|left]; [done|lia].
      * rewrite Forall_forall in Hy, Hx. apply Forall_forall. intros z Hz.
        specialize (Hy z Hz). specialize (Hx z Hz). unfold key_then in *.
        destruct (Z.eq_dec (key x) (key z)); [by right|left]. lia.
Qed.

(** Stability: elements with equal keys keep the order of the input. *)
Lemma sorted_by_stable (l : list A) :
  StronglySorted R l → StronglySorted (key_then key R) (sorted_by key l).
Proof.
  induction 1 as [|x l Hl IH Hx]; simpl; [constructor|].
  apply sorted_insert_stable; [|done].
  by rewrite (sorted_perm (key_lt key) l).
Qed.
End SortedStable.

Lemma submseteq_NoDup {A} (l k : list A) : l ⊆+ k → NoDup k → NoDup l.
Proof.
  intros [k' Hk]%submseteq_Permutation Hnd. rewrite Hk in Hnd.
  by apply NoDup_app in Hnd as [? _].
Qed.

Lemma elem_of_concat {A} (x : A) (ls : list (list A)) :
  x ∈ concat ls ↔ ∃ l, x ∈ l ∧ l ∈ ls.
Proof.
  induction ls as [|l0 ls IH]; simpl.
  - rewrite elem_of_nil. split; [done|]. intros (l & _ & Hl). by apply elem_of_nil in Hl.
  - rewrite elem_of_app, IH. split.
    + intros [Hx|(l & Hx & Hl)]; [exists l0|exists l]; split; try done.
      * apply list_elem_of_here.
      * by apply list_elem_of_further.
    + intros (l & Hx & [->|Hl]%elem_of_cons); [by left|right; by exists l].
Qed.

Lemma concat_filter_sublist {A} (P : list A → Prop) `{∀ x, Decision (P x)}
    (ls : list (list A)) :
  concat (filter P ls) `sublist_of` concat ls.
Proof.
  induction ls as [|x ls IH]; simpl; [done|].
  rewrite filter_cons. destruct (decide (P x)); simpl.
  - by apply sublist_app.
  - by apply sublist_inserts_l.
Qed.

Lemma dd_collect_ext {K V} `{EqDecision K} (key1 key2 : V → K) (l : list V)
    (d : list (K * list V)) :
  (∀ x, key1 x = key2 x) → dd_collect key1 l d = dd_collect key2 l d.
Proof.
  intros Hk. revert d. induction l as [|x l IH]; intros d; [done|].
  rewrite !dd_collect_cons, Hk. apply IH.
Qed.

Section ConflictFacts.
Import PreMediaContainer Conflicts.
Implicit Types (h : store) (r item : ref) (row files : list ref).

Lemma same_but_name_refl (a : t) : same_but_name a a.
Proof. by repeat split. Qed.

Lemma same_but_name_trans (a b c : t) :
  same_but_name a b → same_but_name b c → same_but_name a c.
Proof. unfold same_but_name. intuition congruence. Qed.

Lemma same_but_name_set_name (n : string) (a : t) : same_but_name a (set_name n a).
Proof. by repeat split. Qed.

Lemma rename_item_same i item h :
  rename_item i item h item = set_name (new_name i (_name (h item))) (h item).
Proof. unfold rename_item. apply fn_lookup_insert. Qed.

Lemma rename_item_other i item h r : r ≠ item → rename_item i item h r = h r.
Proof. intros Hne. unfold rename_item. by apply fn_lookup_insert_ne. Qed.

Lemma rename_item_frame i item h r : same_but_name (h r) (rename_item i item h r).
Proof.
  destruct (decide (r = item)) as [->|Hne].
  - rewrite rename_item_same. apply same_but_name_set_name.
  - rewrite rename_item_other by done. apply same_but_name_refl.
Qed.

Lemma rename_row_from_frame i row h r :
  same_but_name (h r) (rename_row_from i row h r).
Proof.
  revert i h. induction row as [|item row IH]; intros i h; simpl.
  - apply same_but_name_refl.
  - eapply same_but_name_trans; [apply (rename_item_frame i item)|apply IH].
Qed.

Lemma rename_row_from_notin i row h r : r ∉ row → rename_row_from i row h r = h r.
Proof.
  revert i h. induction row as [|item row IH]; intros i h Hr; simpl; [done|].
  apply not_elem_of_cons in Hr as [Hne Hr].
  rewrite IH by done. by apply rename_item_other.
Qed.

Lemma rename_row_from_in i row h r j :
  NoDup row → row !! j = Some r →
  rename_row_from i row h r = set_name (new_name (i + j) (_name (h r))) (h r).
Proof.
  revert i h j. induction row as [|item row IH]; intros i h j Hnd Hj; [done|].
  apply NoDup_cons in Hnd as [Hitem Hnd]. destruct j as [|j]; simpl in *.
  - injection Hj as ->. rewrite rename_row_from_notin by done.
    rewrite rename_item_same. by rewrite Nat.add_0_r.
  - assert (r ≠ item) as Hne.
    { intros ->. apply Hitem. by eapply list_elem_of_lookup_2. }
    rewrite (IH (S i) _ j) by done.
    rewrite rename_item_other by done. by rewrite Nat.add_succ_r.
Qed.

Lemma foldl_rename_row_frame rows h r :
  same_but_name (h r) (foldl rename_row h rows r).
Proof.
  revert h. induction rows as [|row rows IH]; intros h; simpl.
  - apply same_but_name_refl.
  - eapply same_but_name_trans; [apply (rename_row_from_frame 0 row)|apply IH].
Qed.

Lemma foldl_rename_row_notin rows h r :
  r ∉ concat rows → foldl rename_row h rows r = h r.
Proof.
  revert h. induction rows as [|row rows IH]; intros h Hr; simpl in *; [done|].
  apply not_elem_of_app in Hr as [Hr1 Hr2].
  rewrite IH by done. by apply rename_row_from_notin.
Qed.

Lemma foldl_rename_row_in rows h r row j :
  NoDup (concat rows) → row ∈ rows → row !! j = Some r →
  foldl rename_row h rows r = set_name (new_name j (_name (h r))) (h r).
Proof.
  revert h. induction rows as [|row0 rows IH]; intros h Hnd Hrow Hj; simpl in *.
  - by apply elem_of_nil in Hrow.
  - apply NoDup_app in Hnd as (Hnd0 & Hdisj & Hnd).
    apply elem_of_cons in Hrow as [->|Hrow].
    + rewrite foldl_rename_row_notin.
      * unfold rename_row. by rewrite (rename_row_from_in 0 row0 h r j).
      * apply Hdisj. by eapply list_elem_of_lookup_2.
    + assert (r ∉ row0) as Hr0.
      { intros Hin. apply (Hdisj r Hin). apply elem_of_concat.
        exists row. split; [by eapply list_elem_of_lookup_2|done]. }
      rewrite IH by done. unfold rename_row. by rewrite rename_row_from_notin.
Qed.
End ConflictFacts.

Section ConflictPass.
Import PreMediaContainer Conflicts.
Implicit Types (h : store) (r item : ref) (row files : list ref).

Lemma locations_ext h h' row :
  (∀ r, location (h' r) = location (h r)) → locations h' row = locations h row.
Proof.
  intros Hloc. unfold locations. f_equal. apply dd_collect_ext. intros x. apply Hloc.
Qed.

(** The directories are never written, so the sub-groups can be computed
    once from the initial store. *)
Lemma foldl_process_row h0 (its : list (list ref)) h :
  (∀ r, location (h r) = location (h0 r)) →
  foldl process_row h its =
    foldl rename_row h (concat ((λ row, dd_values (locations h0 row)) <$> its)).
Proof.
  revert h. induction its as [|row its IH]; intros h Hloc; [done|].
  rewrite fmap_cons. cbn [concat foldl]. rewrite foldl_app.
  assert (process_row h row = foldl rename_row h (dd_values (locations h0 row))) as Hrow.
  { unfold process_row. by rewrite (locations_ext h0 h). }
  rewrite Hrow. apply IH. intros r. rewrite <- Hloc.
  symmetry. apply (foldl_rename_row_frame (dd_values (locations h0 row)) h r).
Qed.

Lemma check_new_rows files h :
  check_for_conflicts_in_files files h = foldl rename_row h (new_rows h files).
Proof. by apply foldl_process_row. Qed.

Lemma check_frame files h r :
  same_but_name (h r) (check_for_conflicts_in_files files h r).
Proof. rewrite check_new_rows. apply foldl_rename_row_frame. Qed.

Lemma concat_locations_submseteq h row : concat (dd_values (locations h row)) ⊆+ row.
Proof.
  unfold locations.
  rewrite <- (dd_collect_values_perm (λ item, location (h item)) row) at 2.
  apply sublist_submseteq. unfold dd_values.
  generalize (dd_collect (λ item, location (h item)) row []). intros d.
  induction d as [|[k g] d IH]; [done|].
  rewrite filter_cons. case_decide; rewrite !fmap_cons; cbn [concat snd].
  - by apply sublist_app.
  - by apply sublist_inserts_l.
Qed.

Lemma concat_sorted_perm {A} (lt : A → A → bool) (ls : list (list A)) :
  concat (sorted lt <$> ls) ≡ₚ concat ls.
Proof.
  induction ls as [|l ls IH]; [done|].
  rewrite fmap_cons. cbn [concat]. by rewrite IH, sorted_perm.
Qed.

Lemma new_rows_submseteq h files : concat (new_rows h files) ⊆+ files.
Proof.
  unfold new_rows. transitivity (concat (items h files)).
  - generalize (items h files). intros its.
    induction its as [|row its IH]; [done|].
    rewrite fmap_cons. cbn [concat]. rewrite concat_app.
    apply submseteq_app; [apply concat_locations_submseteq|done].
  - unfold items, sorted_by. rewrite concat_sorted_perm.
    rewrite <- (dd_collect_values_perm (λ item, _name (h item)) files) at 2.
    apply sublist_submseteq, concat_filter_sublist.
Qed.

Lemma new_rows_member h files row r :
  row ∈ new_rows h files → r ∈ row →
  row = subgroup h files (_name (h r)) (location (h r)) ∧ (1 < length row)%nat.
Proof.
  unfold new_rows. intros (rows & Hrow & Hrows)%elem_of_concat Hr.
  apply list_elem_of_fmap in Hrows as (it & -> & Hit).
  apply list_elem_of_fmap in Hrow as ([d row'] & Heq & Hkv). simpl in Heq. subst row'.
  apply list_elem_of_filter in Hkv as [Hlen Hkv]. simpl in Hlen.
  apply dd_collect_group in Hkv as [Hrowd _].
  apply list_elem_of_fmap in Hit as (g & -> & Hg).
  apply list_elem_of_filter in Hg as [_ Hg].
  apply list_elem_of_fmap in Hg as ([k g'] & Heq & Hkg). simpl in Heq. subst g'.
  apply dd_collect_group in Hkg as [Hgk _].
  split; [|done]. rewrite Hrowd in Hr.
  apply list_elem_of_filter in Hr as [Hd Hr].
  rewrite sorted_by_perm, Hgk in Hr. apply list_elem_of_filter in Hr as [Hk _].
  unfold subgroup. by rewrite Hd, Hk, <- Hgk.
Qed.

Lemma elem_of_subgroup h files r :
  r ∈ subgroup h files (_name (h r)) (location (h r)) ↔ r ∈ files.
Proof.
  unfold subgroup.
  rewrite list_elem_of_filter, sorted_by_perm, list_elem_of_filter. tauto.
Qed.

Lemma subgroup_in_new_rows h files r :
  r ∈ files →
  (1 < length (subgroup h files (_name (h r)) (location (h r))))%nat →
  subgroup h files (_name (h r)) (location (h r)) ∈ new_rows h files.
Proof.
  intros Hr Hlen.
  pose proof (proj2 (elem_of_subgroup h files r) Hr) as Hrsub.
  unfold subgroup in *.
  set (g := filter (λ r0, _name (h r0) = _name (h r)) files) in *.
  set (it := sorted_by (time_key h) g) in *.
  assert (Hlg : (length (filter (λ r0, location (h r0) = location (h r)) it) ≤ length g)%nat).
  { etrans; [apply length_filter|]. unfold it. by rewrite sorted_by_perm. }
  unfold new_rows. apply elem_of_concat.
  exists (dd_values (locations h it)). split.
  - unfold dd_values, locations. apply list_elem_of_fmap.
    exists (location (h r), filter (λ r0, location (h r0) = location (h r)) it).
    split; [done|]. apply list_elem_of_filter. split; [done|].
    apply (dd_collect_elem_of (λ item, location (h item)) it r).
    by apply list_elem_of_filter in Hrsub as [_ ?].
  - apply list_elem_of_fmap. exists it. split; [done|].
    unfold items. apply list_elem_of_fmap. exists g. split; [done|].
    apply list_elem_of_filter. split; [lia|].
    unfold dd_values, conflicts. apply list_elem_of_fmap.
    exists (_name (h r), g). split; [done|].
    by apply (dd_collect_elem_of (λ item, _name (h item)) files r).
Qed.

(** A reference outside of a sub-group with two members keeps its name,
    whatever the aliasing in [files]. *)
Lemma check_unchanged files h r :
  (length (subgroup h files (_name (h r)) (location (h r))) ≤ 1)%nat →
  check_for_conflicts_in_files files h r = h r.
Proof.
  intros Hlen. rewrite check_new_rows. apply foldl_rename_row_notin.
  intros (row & Hr & Hrow)%elem_of_concat.
  destruct (new_rows_member h files row r Hrow Hr) as [-> Hl]. lia.
Qed.

Lemma check_notin files h r :
  r ∉ files → check_for_conflicts_in_files files h r = h r.
Proof.
  intros Hr. rewrite check_new_rows. apply foldl_rename_row_notin.
  intros Hin. apply Hr.
  destruct (submseteq_Permutation _ _ (new_rows_submseteq h files)) as [k Hk].
  rewrite Hk. apply elem_of_app. by left.
Qed.

(** With distinct objects, the [i]-th member of a sub-group with at least
    two members is renamed with [i], once. *)
Lemma check_renamed files h r :
  NoDup files → r ∈ files →
  (1 < length (subgroup h files (_name (h r)) (location (h r))))%nat →
  ∃ i, subgroup h files (_name (h r)) (location (h r)) !! i = Some r
       ∧ check_for_conflicts_in_files files h r
         = set_name (new_name i (_name (h r))) (h r).
Proof.
  intros Hnd Hr Hlen.
  destruct (list_elem_of_lookup_1 _ _ (proj2 (elem_of_subgroup h files r) Hr)) as [i Hi].
  exists i. split; [done|]. rewrite check_new_rows.
  eapply foldl_rename_row_in; [|by apply subgroup_in_new_rows|done].
  eapply submseteq_NoDup; [apply new_rows_submseteq|done].
Qed.
End ConflictPass.

(** ** Conflict resolution on a list of distinct descriptors *)

Lemma StronglySorted_filter {A} (R : relation A) (P : A → Prop)
    `{∀ x, Decision (P x)} (l : list A) :
  StronglySorted R l → StronglySorted R (filter P l).
Proof.
  induction 1 as [|x l Hl IH Hx]; [constructor|].
  rewrite filter_cons. case_decide; [|done].
  constructor; [done|]. apply Forall_forall. intros y [_ Hy]%list_elem_of_filter.
  rewrite Forall_forall in Hx. by apply Hx.
Qed.

Lemma seq_increasing (s n : nat) : StronglySorted lt (seq s n).
Proof.
  revert s. induction n as [|n IH]; intros s; simpl; constructor.
  - apply IH.
  - apply Forall_forall. intros x Hx%elem_of_seq. lia.
Qed.

Section Resolve.
Import PreMediaContainer Conflicts.
Implicit Types (l : list t) (d : t) (k j : nat).

Lemma alloc_lookup l k d : l !! k = Some d → alloc l k = d.
Proof. intros Hk. unfold alloc. by apply list_lookup_total_correct. Qed.

Lemma resolve_length l : length (resolve l) = length l.
Proof. unfold resolve. by rewrite length_fmap, length_seq. Qed.

Lemma resolve_lookup l k d :
  l !! k = Some d →
  resolve l !! k
  = Some (check_for_conflicts_in_files (seq 0 (length l)) (alloc l) k).
Proof.
  intros Hk. unfold resolve. rewrite list_lookup_fmap.
  rewrite lookup_seq_lt; [done|]. by eapply lookup_lt_Some.
Qed.

Lemma elem_of_members l d j :
  j ∈ members l d ↔ ∃ d', l !! j = Some d' ∧ collide d' d.
Proof.
  unfold members. rewrite list_elem_of_filter, elem_of_seq. split.
  - intros [Hc [_ Hlt]]. destruct (lookup_lt_is_Some_2 l j) as [d' Hd']; [lia|].
    exists d'. split; [done|]. by rewrite <- (alloc_lookup l j d').
  - intros (d' & Hd' & Hc). rewrite (alloc_lookup l j d') by done.
    split; [done|]. apply lookup_lt_Some in Hd'. lia.
Qed.

Lemma members_increasing l d : StronglySorted lt (members l d).
Proof.
  unfold members. apply StronglySorted_filter, seq_increasing.
Qed.

Lemma subgroup_ordered_members l d :
  subgroup (alloc l) (seq 0 (length l)) (_name d) (location d) = ordered_members l d.
Proof.
  unfold subgroup, ordered_members, members. rewrite filter_sorted_by. f_equal.
  rewrite list_filter_filter. apply list_filter_iff. intros r. unfold collide. tauto.
Qed.

Lemma ordered_members_perm l d : ordered_members l d ≡ₚ members l d.
Proof. apply sorted_by_perm. Qed.

Lemma ordered_members_NoDup l d : NoDup (ordered_members l d).
Proof. rewrite ordered_members_perm. unfold members. apply NoDup_filter, NoDup_seq. Qed.

Lemma resolve_lookup_unchanged l k d :
  l !! k = Some d → (length (ordered_members l d) ≤ 1)%nat → resolve l !! k = Some d.
Proof.
  intros Hk Hlen. rewrite (resolve_lookup l k d Hk). f_equal.
  rewrite check_unchanged; [by apply alloc_lookup|].
  by rewrite (alloc_lookup l k d Hk), subgroup_ordered_members.
Qed.

Lemma resolve_lookup_renamed l k d :
  l !! k = Some d → (1 < length (ordered_members l d))%nat →
  ∃ i, ordered_members l d !! i = Some k
       ∧ resolve l !! k = Some (set_name (new_name i (_name d)) d).
Proof.
  intros Hk Hlen. rewrite (resolve_lookup l k d Hk).
  destruct (check_renamed (seq 0 (length l)) (alloc l) k) as (i & Hi & Hc).
  - apply NoDup_seq.
  - apply elem_of_seq. apply lookup_lt_Some in Hk. lia.
  - by rewrite (alloc_lookup l k d Hk), subgroup_ordered_members.
  - rewrite (alloc_lookup l k d Hk) in Hi, Hc.
    rewrite subgroup_ordered_members in Hi.
    exists i. split; [done|]. by rewrite Hc.
Qed.

Lemma resolve_same_but_name l : Forall2 same_but_name l (resolve l).
Proof.
  apply Forall2_same_length_lookup_2; [by rewrite resolve_length|].
  intros k x y Hx Hy. rewrite (resolve_lookup l k x Hx) in Hy.
  injection Hy as <-. rewrite <- (alloc_lookup l k x Hx) at 1. apply check_frame.
Qed.

Lemma ordered_members_alone l k d :
  l !! k = Some d →
  (length (ordered_members l d) ≤ 1)%nat ↔
  (∀ j d', l !! j = Some d' → collide d' d → j = k).
Proof.
  intros Hk.
  assert (Hin : ∀ j, j ∈ ordered_members l d ↔ ∃ d', l !! j = Some d' ∧ collide d' d).
  { intros j. by rewrite ordered_members_perm, elem_of_members. }
  assert (Hkin : k ∈ ordered_members l d).
  { apply Hin. exists d. by split. }
  pose proof (ordered_members_NoDup l d) as Hnd.
  destruct (ordered_members l d) as [|x [|y rest]] eqn:E; simpl.
  - by apply elem_of_nil in Hkin.
  - apply list_elem_of_singleton in Hkin as ->. split; [|lia].
    intros _ j d' Hj Hc. apply list_elem_of_singleton, Hin. by exists d'.
  - split; [lia|]. intros Hall. exfalso.
    assert (x = k) as ->.
    { destruct (proj1 (Hin x)) as (d' & ? & ?); [apply list_elem_of_here|]. by eapply Hall. }
    assert (y = k) as ->.
    { destruct (proj1 (Hin y)) as (d' & ? & ?);
        [apply list_elem_of_further, list_elem_of_here|]. by eapply Hall. }
    apply NoDup_cons in Hnd as [Hnd _]. apply Hnd, list_elem_of_here.
Qed.
End Resolve.

Section ResolvePair.
Import PreMediaContainer Conflicts.
Implicit Types (a b d : t).

Lemma members_collide (l : list t) a b : collide a b → members l a = members l b.
Proof.
  intros [Hn Hl]. unfold members. apply list_filter_iff. intros r. unfold collide.
  rewrite Hn, Hl. done.
Qed.

Lemma ordered_members_pair a b :
  collide a b →
  ordered_members [a; b] a = if time b <? time a then [1; 0]%nat else [0; 1]%nat.
Proof.
  intros Hc. unfold ordered_members, members. cbn [length seq].
  rewrite filter_cons_True by (by split).
  rewrite filter_cons_True by (by destruct Hc; split).
  rewrite filter_nil. reflexivity.
Qed.

Lemma list_pair_eq {A} (l : list A) (x y : A) :
  length l = 2%nat → l !! 0%nat = Some x → l !! 1%nat = Some y → l = [x; y].
Proof.
  destruct l as [|x' [|y' [|z l]]]; simpl; intros Hlen Hx Hy; try discriminate.
  congruence.
Qed.

(** Two colliding descriptors are numbered by time, the list order deciding
    a tie. *)
Lemma resolve_pair a b :
  collide a b →
  resolve [a; b] =
    if time b <? time a
    then [set_name (new_name 1 (_name a)) a; set_name (new_name 0 (_name b)) b]
    else [set_name (new_name 0 (_name a)) a; set_name (new_name 1 (_name b)) b].
Proof.
  intros Hc.
  pose proof (ordered_members_pair a b Hc) as Ha.
  assert (ordered_members [a; b] b = ordered_members [a; b] a) as Hb.
  { unfold ordered_members. by rewrite (members_collide [a; b] a b). }
  destruct (resolve_lookup_renamed [a; b] 0 a eq_refl) as (i & Hi & Hra).
  { rewrite Ha. destruct (time b <? time a); simpl; lia. }
  destruct (resolve_lookup_renamed [a; b] 1 b eq_refl) as (j & Hj & Hrb).
  { rewrite Hb, Ha. destruct (time b <? time a); simpl; lia. }
  rewrite Ha in Hi. rewrite Hb, Ha in Hj.
  destruct (time b <? time a);
    destruct i as [|[|i]]; try discriminate Hi;
    destruct j as [|[|j]]; try discriminate Hj;
    by apply list_pair_eq; [apply resolve_length|..].
Qed.

Lemma resolve_pair_apart a b : ¬ collide a b → resolve [a; b] = [a; b].
Proof.
  intros Hc.
  assert (∀ k d, [a; b] !! k = Some d → (length (ordered_members [a; b] d) ≤ 1)%nat) as Hlen.
  { intros k d Hk. apply (ordered_members_alone [a; b] k d Hk).
    intros j d' Hj Hcd.
    destruct k as [|[|k]], j as [|[|j]]; simpl in *; try done;
      simplify_eq; exfalso; apply Hc; destruct Hcd; by split. }
  apply list_pair_eq; [apply resolve_length| |].
  - apply resolve_lookup_unchanged; [done|]. by apply (Hlen 0%nat).
  - apply resolve_lookup_unchanged; [done|]. by apply (Hlen 1%nat).
Qed.
End ResolvePair.

Section ConflictClaims.
Import PreMediaContainer Conflicts.

(** C2. For every list of descriptors, conflict resolution renames exactly
    the descriptors that share display name and target directory with another
    descriptor of the list.  The members of such a sub-group are ordered by
    last-modified time ascending (ties in list order) and the member at
    position [i] of that order gets [.i] inserted before its extension, which
    always changes its name.  Two descriptors named [notes.pdf] in one
    directory with times [t1 < t2] become [notes.0.pdf] and [notes.1.pdf];
    descriptors with one name in different directories keep their names.
    The first part states the renaming on the store, for references to
    distinct objects; the others read the descriptors back from a list.
    Each part gives the display name that is read from the result. *)
Theorem conflict_resolution_renames (l : list t) :
  (∀ files h r, NoDup files → r ∈ files →
     let group := subgroup h files (_name (h r)) (location (h r)) in
     ((length group ≤ 1)%nat → check_for_conflicts_in_files files h r = h r)
     ∧ ((1 < length group)%nat →
        ∃ i, group !! i = Some r
             ∧ check_for_conflicts_in_files files h r
               = set_name (new_name i (_name (h r))) (h r)
             ∧ _name (check_for_conflicts_in_files files h r)
               = new_name i (_name (h r))
             ∧ _name (check_for_conflicts_in_files files h r) ≠ _name (h r)))
  ∧ length (resolve l) = length l
  ∧ (∀ k d, l !! k = Some d →
       let group := ordered_members l d in
       (∀ j, j ∈ group ↔ ∃ d', l !! j = Some d' ∧ collide d' d)
       ∧ NoDup group
       ∧ StronglySorted (ascending (time_key (alloc l))) group
       ∧ StronglySorted (key_then (time_key (alloc l)) lt) group
       ∧ ((∀ j d', l !! j = Some d' → collide d' d → j = k) →
          resolve l !! k = Some d
          ∧ _name <$> resolve l !! k = Some (_name d))
       ∧ ((∃ j d', l !! j = Some d' ∧ collide d' d ∧ j ≠ k) →
          ∃ i, group !! i = Some k
               ∧ resolve l !! k = Some (set_name (new_name i (_name d)) d)
               ∧ _name <$> resolve l !! k = Some (new_name i (_name d))
               ∧ _name <$> resolve l !! k ≠ Some (_name d)
               ∧ new_name i (_name d) ≠ _name d))
  ∧ (∀ i name,
       new_name i name
       = (splitext name).1 +:+ "." +:+ PyStr.str (Z.of_nat i) +:+ (splitext name).2)
  ∧ (∀ a b,
       _name a = "notes.pdf" → _name b = "notes.pdf" → location a = location b →
       time a < time b →
       resolve [a; b] = [set_name "notes.0.pdf" a; set_name "notes.1.pdf" b]
       ∧ resolve [b; a] = [set_name "notes.1.pdf" b; set_name "notes.0.pdf" a]
       ∧ _name <$> resolve [a; b] = ["notes.0.pdf"; "notes.1.pdf"]
       ∧ _name <$> resolve [b; a] = ["notes.1.pdf"; "notes.0.pdf"])
  ∧ (∀ a b, _name a = _name b → location a ≠ location b →
            resolve [a; b] = [a; b]
            ∧ _name <$> resolve [a; b] = [_name a; _name b]).
Proof.
  split.
  { intros files h r Hnd Hr group. subst group.
    split; [apply check_unchanged|]. intros Hlen.
    destruct (check_renamed files h r Hnd Hr Hlen) as (i & Hi & Hnew).
    exists i. split; [done|]. split; [done|]. rewrite Hnew. cbn [set_name _name].
    split; [done|apply new_name_neq]. }
  split; [apply resolve_length|]. split; [|split; [|split]].
  - intros k d Hk group. subst group.
    split; [intros j; by rewrite ordered_members_perm, elem_of_members|].
    split; [apply ordered_members_NoDup|].
    split; [apply sorted_by_ascending|].
    split; [apply sorted_by_stable, members_increasing|].
    split.
    + intros Halone.
      assert (Hsame : resolve l !! k = Some d).
      { apply resolve_lookup_unchanged; [done|].
        by apply (ordered_members_alone l k d Hk). }
      split; [done|]. by rewrite Hsame.
    + intros (j & d' & Hj & Hc & Hne).
      destruct (resolve_lookup_renamed l k d Hk) as (i & Hi & Hr).
      * destruct (decide (length (ordered_members l d) ≤ 1)%nat) as [Hle|]; [|lia].
        exfalso. apply Hne. by apply (proj1 (ordered_members_alone l k d Hk) Hle j d').
      * exists i. split; [done|]. split; [done|]. rewrite Hr. cbn [fmap option_fmap option_map set_name _name].
        split; [done|]. split; [|apply new_name_neq].
        intros [= Heq]. by apply new_name_neq in Heq.
  - intros i name. unfold new_name. by destruct (splitext name).
  - intros a b Ha Hb Hloc Hlt.
    assert (Hab : resolve [a; b] = [set_name "notes.0.pdf" a; set_name "notes.1.pdf" b]).
    { rewrite resolve_pair by (split; congruence).
      destruct (Z.ltb_spec (time b) (time a)); [lia|]. by rewrite Ha, Hb. }
    assert (Hba : resolve [b; a] = [set_name "notes.1.pdf" b; set_name "notes.0.pdf" a]).
    { rewrite resolve_pair by (split; congruence).
      destruct (Z.ltb_spec (time a) (time b)); [|lia]. by rewrite Ha, Hb. }
    split; [done|]. split; [done|]. by rewrite Hab, Hba.
  - intros a b Hn Hloc.
    assert (Hab : resolve [a; b] = [a; b])
      by (apply resolve_pair_apart; by intros [_ ?]).
    split; [done|]. by rewrite Hab.
Qed.

(** C3 fails on the code: a renamed descriptor can take the name that
    another descriptor of the directory already has.  With [a.pdf] twice and
    [a.0.pdf] once in one directory, the pass returns [a.0.pdf] twice. *)
Theorem conflict_resolution_leaves_conflict :
  let d name time := mk name "u" "u" "dir" time 1 document (-1) None in
  let l := [d "a.pdf" 1; d "a.pdf" 2; d "a.0.pdf" 3] in
  resolve l = [d "a.0.pdf" 1; d "a.1.pdf" 2; d "a.0.pdf" 3]
  ∧ ¬ no_conflicts (resolve l).
Proof.
  intros d l.
  assert (resolve l = [d "a.0.pdf" 1; d "a.1.pdf" 2; d "a.0.pdf" 3]) as E
    by (vm_compute; reflexivity).
  split; [done|]. rewrite E. intros H.
  apply (H 0%nat 2%nat (d "a.0.pdf" 1) (d "a.0.pdf" 3)); by repeat constructor.
Qed.

(** C10. Conflict resolution writes nothing but display names.  On the
    store, whatever objects [files] refers to and however often, every
    object keeps all its other fields, an object outside of [files] is
    untouched, and so is an object that [files] does not hold twice or
    together with another one of its name and directory.  On a list of
    distinct descriptors the result has the same length and holds, position
    by position, the same descriptors up to the display name, and a
    descriptor that collides with no other one is returned as it was. *)
Theorem conflict_resolution_frame :
  (∀ files h r, same_but_name (h r) (check_for_conflicts_in_files files h r))
  ∧ (∀ files h r, r ∉ files → check_for_conflicts_in_files files h r = h r)
  ∧ (∀ files h r,
       (length (subgroup h files (_name (h r)) (location (h r))) ≤ 1)%nat →
       check_for_conflicts_in_files files h r = h r)
  ∧ (∀ l, length (resolve l) = length l
          ∧ Forall2 same_but_name l (resolve l)
          ∧ (∀ k d, l !! k = Some d →
                (∀ j d', l !! j = Some d' → collide d' d → j = k) →
                resolve l !! k = Some d)).
Proof.
  split; [apply check_frame|]. split; [apply check_notin|].
  split; [apply check_unchanged|].
  intros l. split; [apply resolve_length|]. split.
  - apply resolve_same_but_name.
  - intros k d Hk Halone. apply resolve_lookup_unchanged; [done|].
    by apply (ordered_members_alone l k d Hk).
Qed.
End ConflictClaims.

(** ** The merged list of [download_content] *)

Section DownloadContent.
Import PreMediaContainer.

Lemma split_extern_spec (extern videos documents : list t) :
  foldl (λ '(videos, documents) thing,
           if decide (media_type thing = video)
           then (videos ++ [thing], documents)
           else (videos, documents ++ [thing]))
        (videos, documents) extern
  = (videos ++ filter (λ x, media_type x = video) extern,
     documents ++ filter (λ x, media_type x ≠ video) extern).
Proof.
  revert videos documents. induction extern as [|thing extern IH]; intros videos documents.
  - by rewrite !app_nil_r.
  - cbn [foldl]. rewrite !filter_cons.
    destruct (decide (media_type thing = video)) as [Hv|Hv].
    + rewrite IH, decide_False by tauto. by rewrite <- app_assoc.
    + rewrite IH, decide_True by done. by rewrite <- app_assoc.
Qed.

Lemma Forall2_same_but_name_fmap {B} (f : t → B) (l k : list t) :
  (∀ a b, same_but_name a b → f a = f b) →
  Forall2 same_but_name l k → f <$> l = f <$> k.
Proof.
  intros Hf. induction 1 as [|a b l k Hab _ IH]; [done|].
  rewrite !fmap_cons. f_equal; [by apply Hf|done].
Qed.

(** C8. The list returned by the discovery orchestration is, up to the
    display names written by conflict resolution, the bucket of course
    documents, non-video external resources and assignments sorted by
    last-modified time descending, followed by the videos sorted the same
    way: every video comes after every member of the first bucket whatever
    the times.  Times [100, 300, 200] come out as [300, 200, 100]. *)
Theorem download_content_order (_documents : list (list t)) (mod_assign externs : list t) :
  let videos := filter (λ x, media_type x = video) externs in
  let bucket := concat _documents ++ filter (λ x, media_type x ≠ video) externs ++ mod_assign in
  let result := RequestHelper.download_content _documents mod_assign externs in
  Forall2 same_but_name
    (sorted_by_reverse time bucket ++ sorted_by_reverse time videos) result
  ∧ time <$> result = time <$> (sorted_by_reverse time bucket ++ sorted_by_reverse time videos)
  ∧ media_type <$> result
    = media_type <$> (sorted_by_reverse time bucket ++ sorted_by_reverse time videos)
  ∧ sorted_by_reverse time bucket ≡ₚ bucket
  ∧ StronglySorted (descending time) (sorted_by_reverse time bucket)
  ∧ sorted_by_reverse time videos ≡ₚ videos
  ∧ StronglySorted (descending time) (sorted_by_reverse time videos)
  ∧ Forall (λ x, media_type x = video) (sorted_by_reverse time videos)
  ∧ (let d t0 kind := mk "f" "u" "u" "dir" t0 1 kind (-1) None in
     time <$> RequestHelper.download_content
                [[d 100 document; d 300 document]; [d 200 document]] [] []
       = [300; 200; 100]
     ∧ time <$> RequestHelper.download_content
                [[d 100 document]] [d 50 document] [d 900 video; d 70 extern; d 800 video]
       = [100; 70; 50; 900; 800]).
Proof.
  intros videos bucket result.
  assert (Hres : result
    = Conflicts.resolve (sorted_by_reverse time bucket ++ sorted_by_reverse time videos)).
  { subst result. unfold RequestHelper.download_content, RequestHelper.split_extern.
    rewrite split_extern_spec. simpl. unfold RequestHelper.sort.
    subst bucket videos. by rewrite <- app_assoc. }
  assert (Hframe : Forall2 same_but_name
            (sorted_by_reverse time bucket ++ sorted_by_reverse time videos) result).
  { rewrite Hres. apply resolve_same_but_name. }
  split; [done|].
  split.
  { symmetry. apply (Forall2_same_but_name_fmap time _ _); [|done].
    unfold same_but_name. tauto. }
  split.
  { symmetry. apply (Forall2_same_but_name_fmap media_type _ _); [|done].
    unfold same_but_name. tauto. }
  split; [apply sorted_by_reverse_perm|].
  split; [apply sorted_by_reverse_descending|].
  split; [apply sorted_by_reverse_perm|].
  split; [apply sorted_by_reverse_descending|].
  split.
  { rewrite sorted_by_reverse_perm. subst videos.
    apply Forall_forall. by intros x [? _]%list_elem_of_filter. }
  split; vm_compute; reflexivity.
Qed.
End DownloadContent.

(** ** Url suffixes *)

Lemma string_get_last (s p : string) (n : nat) (c : ascii) :
  String.get n p = Some c →
  String.get (String.length s + n) (s +:+ p) = Some c.
Proof.
  intros Hp. induction s as [|a s IH]; [done|]. rewrite app_String. simpl. exact IH.
Qed.

Lemma endswith_drop_last (s p : string) :
  PyStr.endswith s p = true → PyStr.drop_last s p +:+ p = s.
Proof.
  unfold PyStr.endswith, PyStr.drop_last.
  intros [_ Hp%String.eqb_eq]%andb_true_iff.
  set (n := (String.length s - String.length p)%nat) in *.
  transitivity (PyStr.take n s +:+ PyStr.drop n s); [by rewrite Hp|apply take_drop].
Qed.

Lemma drop_app_length (s p : string) : PyStr.drop (String.length s) (s +:+ p) = p.
Proof. induction s as [|a s IH]; [done|]. rewrite app_String. simpl. exact IH. Qed.

Lemma endswith_app (s p : string) : PyStr.endswith (s +:+ p) p = true.
Proof.
  unfold PyStr.endswith. rewrite string_length_app. apply andb_true_iff. split.
  - apply Nat.leb_le. lia.
  - replace (String.length s + String.length p - String.length p)%nat
      with (String.length s) by lia.
    rewrite drop_app_length. apply String.eqb_refl.
Qed.

Lemma tubcloud_download_endswith (url : string) :
  PyStr.endswith (Resolution.tubcloud_download url) "/download" = true.
Proof.
  unfold Resolution.tubcloud_download.
  destruct (PyStr.endswith url "/download") eqn:E; [done|apply endswith_app].
Qed.

Lemma tubcloud_download_idem (url : string) :
  Resolution.tubcloud_download (Resolution.tubcloud_download url)
  = Resolution.tubcloud_download url.
Proof.
  unfold Resolution.tubcloud_download at 1. by rewrite tubcloud_download_endswith.
Qed.

(** A url that ends in [/download] does not end in [?forcedownload=1]. *)
Lemma endswith_download_not_forced (s : string) :
  PyStr.endswith s "/download" = true →
  PyStr.endswith s PreMediaContainer.force_download = false.
Proof.
  intros H1. destruct (PyStr.endswith s PreMediaContainer.force_download) eqn:H2; [|done].
  apply endswith_drop_last in H1, H2.
  pose proof (string_get_last (PyStr.drop_last s "/download") "/download" 8 "d" eq_refl) as G1.
  pose proof (string_get_last (PyStr.drop_last s PreMediaContainer.force_download)
                PreMediaContainer.force_download 15 "1" eq_refl) as G2.
  rewrite H1 in G1. rewrite H2 in G2.
  assert (String.length s = String.length (PyStr.drop_last s "/download") + 9)%nat as L1.
  { rewrite <- H1 at 1. by rewrite string_length_app. }
  assert (String.length s
          = String.length (PyStr.drop_last s PreMediaContainer.force_download) + 16)%nat as L2.
  { rewrite <- H2 at 1. by rewrite string_length_app. }
  replace (String.length (PyStr.drop_last s PreMediaContainer.force_download) + 15)%nat
    with (String.length (PyStr.drop_last s "/download") + 8)%nat in G2 by lia.
  rewrite G1 in G2. discriminate G2.
Qed.

Lemma strip_force_download_spec (s : string) :
  (PyStr.endswith s PreMediaContainer.force_download = true →
   PreMediaContainer.strip_force_download s +:+ PreMediaContainer.force_download = s)
  ∧ (PyStr.endswith s PreMediaContainer.force_download = false →
     PreMediaContainer.strip_force_download s = s).
Proof.
  unfold PreMediaContainer.strip_force_download. split; intros H; rewrite H; [|done].
  by apply endswith_drop_last.
Qed.

(** ** Resolution of external links *)

Section ResolutionFacts.
Import PreMediaContainer Resolution.
Context (ext : Externals).
Implicit Types (session : Session) (now : Z) (url : string) (course : Course.t)
  (media_type : MediaType) (filename : option string) (w : World) (c : t).

Lemma from_dump_True url (d : Database.t) :
  from_dump url d = DumpTrue ↔
  ((url ∉ Database.bad_urls d) ∧ Database.pre_containers d !! url = None).
Proof.
  unfold from_dump, Database.get_bad_urls, Database.get_pre_container_by_url.
  case_bool_decide as Hbad.
  - split; [done|]. by intros [? _].
  - destruct (Database.pre_containers d !! url).
    + split; [done|]. by intros [_ ?].
    + by split.
Qed.

Lemma from_dump_False url (d : Database.t) :
  url ∈ Database.bad_urls d → from_dump url d = DumpFalse.
Proof. intros Hbad. unfold from_dump, Database.get_bad_urls. by rewrite bool_decide_eq_true_2. Qed.

Lemma from_dump_Container url (d : Database.t) c :
  url ∉ Database.bad_urls d → Database.pre_containers d !! url = Some c →
  from_dump url d = DumpContainer c.
Proof.
  intros Hbad Hc. unfold from_dump, Database.get_bad_urls, Database.get_pre_container_by_url.
  by rewrite bool_decide_eq_false_2, Hc.
Qed.

(** The host-specific step never touches the cache. *)
Lemma pre_resolution_db session url w : db (pre_resolution ext session url w).2 = db w.
Proof. unfold pre_resolution. by repeat case_match. Qed.

Lemma build_container_url now url download_url course media_type filename con c :
  build_container ext now url download_url course media_type filename con = Returns c →
  PreMediaContainer.url c = url
  ∧ PreMediaContainer.download_url c = strip_force_download download_url.
Proof.
  unfold build_container. intros H. repeat case_match; simplify_eq; done.
Qed.

(** Without the empty header name, the time of the container is the clock's. *)
Lemma build_container_time now url download_url course media_type filename con c :
  build_container ext now url download_url course media_type filename con = Returns c →
  headers_get "" (headers con) = None → time c = now.
Proof.
  unfold build_container. intros H Hempty. rewrite Hempty in H.
  repeat case_match; simplify_eq; done.
Qed.

Lemma from_extern_link_bad session now url course media_type filename w :
  url ∈ Database.bad_urls (db w) →
  from_extern_link ext session now url course media_type filename w = (Returns None, w).
Proof. intros Hbad. unfold from_extern_link. by rewrite from_dump_False. Qed.

Lemma from_extern_link_cached session now url course media_type filename w c :
  url ∉ Database.bad_urls (db w) → Database.pre_containers (db w) !! url = Some c →
  from_extern_link ext session now url course media_type filename w = (Returns (Some c), w).
Proof.
  intros Hbad Hc. unfold from_extern_link. by rewrite (from_dump_Container url (db w) c).
Qed.

(** What a call can do to the cache: nothing, or, for an uncached url, one
    mark or one stored container keyed by that url. *)
Lemma from_extern_link_db session now url course media_type filename w :
  let w' := (from_extern_link ext session now url course media_type filename w).2 in
  db w' = db w
  ∨ (from_dump url (db w) = DumpTrue
     ∧ (db w' = Database.add_bad_url url (db w)
        ∨ ∃ c, PreMediaContainer.url c = url ∧ db w' = Database.add_pre_container c (db w))).
Proof.
  unfold from_extern_link.
  destruct (from_dump url (db w)) eqn:Hdump; simpl; [by left| |by left].
  destruct (isis_ignored_match url); simpl; [right; split; [done|by left]|].
  pose proof (pre_resolution_db session url w) as Hpre.
  destruct (pre_resolution ext session url w) as [[download_url|] w1]; simpl in *;
    [|by left].
  destruct (session (probe_target url download_url)) as [| |con]; simpl.
  - by left.
  - right. split; [done|]. left. by rewrite Hpre.
  - destruct (accepted_content_type con); simpl.
    + destruct (build_container _ _ _ _ _ _ _ con) as [c|e] eqn:Hb; simpl; [|by left].
      right. split; [done|]. right. exists c. rewrite Hpre.
      by apply build_container_url in Hb as [-> _].
    + right. split; [done|]. left. by rewrite Hpre.
Qed.

Lemma run_call_bad_mono w (call : Call) url :
  url ∈ Database.bad_urls (db w) → url ∈ Database.bad_urls (db (run_call ext w call)).
Proof.
  intros Hbad. unfold run_call.
  destruct (from_extern_link_db (call_session call) (call_now call) (call_url call)
              (call_course call) (call_media_type call) (call_filename call) w)
    as [->|[_ [->|(c & _ & ->)]]]; simpl; [done| |done].
  apply elem_of_union. by right.
Qed.

Lemma run_call_cached_stable w (call : Call) url c :
  url ∉ Database.bad_urls (db w) → Database.pre_containers (db w) !! url = Some c →
  (url ∉ Database.bad_urls (db (run_call ext w call)))
  ∧ Database.pre_containers (db (run_call ext w call)) !! url = Some c.
Proof.
  intros Hbad Hc. unfold run_call.
  destruct (from_extern_link_db (call_session call) (call_now call) (call_url call)
              (call_course call) (call_media_type call) (call_filename call) w)
    as [->|[Hdump [->|(c' & Hurl & ->)]]]; simpl; [done| |].
  - apply from_dump_True in Hdump as [_ Hnone].
    split; [|done]. rewrite elem_of_union, elem_of_singleton.
    intros [->|?]; [congruence|done].
  - apply from_dump_True in Hdump as [_ Hnone].
    split; [done|]. rewrite lookup_insert_ne; [done|]. congruence.
Qed.

Lemma run_calls_bad_mono (calls : list Call) w url :
  url ∈ Database.bad_urls (db w) → url ∈ Database.bad_urls (db (run_calls ext calls w)).
Proof.
  revert w. induction calls as [|call calls IH]; intros w Hbad; [done|].
  apply IH. by apply run_call_bad_mono.
Qed.

Lemma run_calls_cached_stable (calls : list Call) w url c :
  url ∉ Database.bad_urls (db w) → Database.pre_containers (db w) !! url = Some c →
  (url ∉ Database.bad_urls (db (run_calls ext calls w)))
  ∧ Database.pre_containers (db (run_calls ext calls w)) !! url = Some c.
Proof.
  revert w. induction calls as [|call calls IH]; intros w Hbad Hc; [done|].
  destruct (run_call_cached_stable w call url c Hbad Hc) as [Hbad' Hc'].
  by apply IH.
Qed.

(** A returned container is in the cache afterwards, and the url is not
    marked. *)
Lemma from_extern_link_Some session now url course media_type filename w c w' :
  from_extern_link ext session now url course media_type filename w
    = (Returns (Some c), w') →
  (url ∉ Database.bad_urls (db w')) ∧ Database.pre_containers (db w') !! url = Some c.
Proof.
  unfold from_extern_link.
  destruct (from_dump url (db w)) as [| |c0] eqn:Hdump; simpl.
  - intros [=].
  - apply from_dump_True in Hdump as [Hbad Hnone].
    destruct (isis_ignored_match url); simpl; [intros [=]|].
    pose proof (pre_resolution_db session url w) as Hpre.
    destruct (pre_resolution ext session url w) as [[download_url|] w1]; simpl in *;
      [|intros [=]].
    destruct (session (probe_target url download_url)) as [| |con]; simpl;
      [intros [=]..|].
    destruct (accepted_content_type con); simpl; [|intros [=]].
    destruct (build_container _ _ _ _ _ _ _ con) as [c'|e] eqn:Hb; simpl; [|intros [=]].
    intros [= -> <-]. simpl. rewrite Hpre. split; [done|].
    apply build_container_url in Hb as [<- _]. apply lookup_insert_eq.
  - intros [= -> <-]. unfold from_dump, Database.get_bad_urls,
      Database.get_pre_container_by_url in Hdump.
    case_bool_decide; [done|].
    destruct (Database.pre_containers (db w) !! url) eqn:E; by simplify_eq.
Qed.
End ResolutionFacts.

Section ResolutionClaims.
Import PreMediaContainer Resolution.
Context (ext : Externals).
Implicit Types (session : Session) (now : Z) (url : string) (course : Course.t)
  (media_type : MediaType) (filename : option string) (w : World) (c : t).

(** The outcome of resolving an uncached url, by the cases of [marks_bad]
    and [probe_raises]. *)
Lemma uncached_resolution session now url course media_type filename w :
  from_dump url (db w) = DumpTrue →
  let r := from_extern_link ext session now url course media_type filename w in
  (url ∈ Database.bad_urls (db r.2) ↔ marks_bad ext session url w)
  ∧ (marks_bad ext session url w →
     r.1 = Returns None ∧ db r.2 = Database.add_bad_url url (db w))
  ∧ (probe_raises ext session url w → r.1 = Returns None ∧ db r.2 = db w).
Proof.
  intros Hdump r. subst r.
  destruct (proj1 (from_dump_True url (db w)) Hdump) as [Hbad Hnone].
  assert (Hmark : url ∈ Database.bad_urls (Database.add_bad_url url (db w))).
  { simpl. apply elem_of_union. left. by apply elem_of_singleton. }
  unfold from_extern_link, marks_bad, probe_raises. rewrite Hdump.
  destruct (isis_ignored_match url) eqn:Hign; simpl.
  { split; [split; [by left|done]|]. split; [done|]. by intros [? _]. }
  pose proof (pre_resolution_db ext session url w) as Hpre.
  destruct (pre_resolution ext session url w) as [[download_url|] w1]; simpl in *.
  2:{ rewrite Hpre. split; [split; [done|]|split].
      - by intros [?|(? & ? & _)].
      - by intros [?|(? & ? & _)].
      - by intros [_ (? & ? & _)]. }
  destruct (session (probe_target url download_url)) as [| |con] eqn:Hs; simpl.
  - rewrite Hpre. split; [split; [done|]|split].
    + intros [?|(du & [= <-] & [?|(con & ? & _)])]; congruence.
    + intros [?|(du & [= <-] & [?|(con & ? & _)])]; congruence.
    + done.
  - rewrite Hpre. split; [split; [|done]|split].
    + intros _. right. exists download_url. split; [done|]. by left.
    + done.
    + intros [_ (du & [= <-] & ?)]. congruence.
  - destruct (accepted_content_type con) eqn:Hacc; simpl.
    + assert (Hnot : ¬ (false = true ∨ ∃ du, Some download_url = Some du
                ∧ (session (probe_target url du) = NoResponse
                   ∨ ∃ con', session (probe_target url du) = Responds con'
                             ∧ accepted_content_type con' = false))).
      { intros [?|(du & [= <-] & [?|(con' & ? & ?)])]; [done|congruence|].
        simplify_eq. congruence. }
      destruct (build_container _ _ _ _ _ _ _ con) as [c|e]; simpl; rewrite Hpre.
      * split; [split; [done|by intros ?%Hnot]|]. split; [by intros ?%Hnot|].
        intros [_ (du & [= <-] & ?)]. congruence.
      * split; [split; [done|by intros ?%Hnot]|]. split; [by intros ?%Hnot|].
        intros [_ (du & [= <-] & ?)]. congruence.
    + rewrite Hpre. split; [split; [|done]|split].
      * intros _. right. exists download_url. split; [done|]. right. by exists con.
      * done.
      * intros [_ (du & [= <-] & ?)]. congruence.
Qed.

(** C5, as the code has it.  For a url that is not cached, resolution marks
    the url bad exactly when the url matches the ignore pattern, or the
    probe is reached and yields no response or a response whose content
    type is missing or starts with neither [application/] nor [video/]; it
    then returns no descriptor and stores none.  When the probe raises,
    resolution returns no descriptor as well, and leaves the cache as it
    was: the url is not marked. *)
Theorem resolution_marks_bad session now url course media_type filename w :
  from_dump url (db w) = DumpTrue →
  let r := from_extern_link ext session now url course media_type filename w in
  (url ∈ Database.bad_urls (db r.2) ↔ marks_bad ext session url w)
  ∧ (marks_bad ext session url w →
     r.1 = Returns None ∧ db r.2 = Database.add_bad_url url (db w))
  ∧ (probe_raises ext session url w → r.1 = Returns None ∧ db r.2 = db w).
Proof. apply uncached_resolution. Qed.

(** C6. Once a url is in the negative cache, whatever resolutions happen
    in between, a later resolution of it returns no descriptor and leaves
    the world as it is: no request is added, so the probe is not reached.
    Once a positive entry exists for a url that is not marked, a later
    resolution returns that entry unchanged, again without any request.
    The negative cache is consulted first, so it wins when both entries
    exist.  In particular a url that a resolution marked stays unresolved,
    and a url that a resolution resolved yields the same descriptor again. *)
Theorem cache_decides_before_the_network (calls : list Call)
    session now url course media_type filename w :
  let w' := run_calls ext calls w in
  let r := from_extern_link ext session now url course media_type filename w' in
  (url ∈ Database.get_bad_urls (db w) → r = (Returns None, w'))
  ∧ (∀ c, (url ∉ Database.get_bad_urls (db w)) →
          Database.get_pre_container_by_url url (db w) = Some c →
          r = (Returns (Some c), w'))
  ∧ (∀ c, url ∈ Database.get_bad_urls (db w) →
          Database.get_pre_container_by_url url (db w) = Some c →
          r = (Returns None, w'))
  ∧ (∀ session0 now0 course0 media_type0 filename0 w0,
       from_dump url (db w0) = DumpTrue →
       marks_bad ext session0 url w0 →
       w = (from_extern_link ext session0 now0 url course0 media_type0 filename0 w0).2 →
       r = (Returns None, w'))
  ∧ (∀ session0 now0 course0 media_type0 filename0 w0 c,
       from_extern_link ext session0 now0 url course0 media_type0 filename0 w0
         = (Returns (Some c), w) →
       r = (Returns (Some c), w'))
  ∧ (let resolve session now w :=
       from_extern_link Sample.ext session now "https://example.org/a.pdf"
         Sample.course extern None w in
     let stored := resolve (Sample.serves Sample.pdf) 0 Sample.world in
     let marked := resolve (Sample.serves Sample.page) 0 Sample.world in
     resolve Sample.unreachable 9 stored.2 = stored
     ∧ requested stored.2 = ["https://example.org/a.pdf"]
     ∧ resolve (Sample.serves Sample.pdf) 9 marked.2 = (Returns None, marked.2)
     ∧ requested marked.2 = ["https://example.org/a.pdf"]).
Proof.
  intros w' r. subst w' r. unfold Database.get_bad_urls, Database.get_pre_container_by_url.
  assert (Hneg : url ∈ Database.bad_urls (db w) →
    from_extern_link ext session now url course media_type filename (run_calls ext calls w)
    = (Returns None, run_calls ext calls w)).
  { intros Hbad. by apply from_extern_link_bad, run_calls_bad_mono. }
  assert (Hpos : ∀ c, (url ∉ Database.bad_urls (db w)) →
    Database.pre_containers (db w) !! url = Some c →
    from_extern_link ext session now url course media_type filename (run_calls ext calls w)
    = (Returns (Some c), run_calls ext calls w)).
  { intros c Hbad Hc.
    destruct (run_calls_cached_stable ext calls w url c Hbad Hc) as [Hbad' Hc'].
    by apply from_extern_link_cached. }
  split; [done|]. split; [done|]. split; [by intros c Hbad _; apply Hneg|].
  split; [|split].
  - intros session0 now0 course0 media_type0 filename0 w0 Hdump Hmarks ->.
    apply Hneg.
    by apply (uncached_resolution session0 now0 url course0 media_type0 filename0 w0 Hdump).
  - intros session0 now0 course0 media_type0 filename0 w0 c Hres.
    destruct (from_extern_link_Some ext _ _ _ _ _ _ _ _ _ Hres) as [Hbad Hc].
    by apply Hpos.
  - repeat split; vm_compute; reflexivity.
Qed.
End ResolutionClaims.

(** The hypothesis on the cache holds for a fresh url on an
    empty cache; the server answers with a web page, which marks the url. *)
Lemma resolution_marks_bad_witness :
  let url := "https://example.org/index.html" in
  let r := Resolution.from_extern_link Sample.ext (Sample.serves Sample.page) 0 url
             Sample.course extern None Sample.world in
  Resolution.from_dump url (db Sample.world) = Resolution.DumpTrue
  ∧ (url ∈ Database.bad_urls (db r.2)
     ↔ Resolution.marks_bad Sample.ext (Sample.serves Sample.page) url Sample.world)
  ∧ (Resolution.marks_bad Sample.ext (Sample.serves Sample.page) url Sample.world →
     r.1 = Returns None ∧ db r.2 = Database.add_bad_url url (db Sample.world))
  ∧ (Resolution.probe_raises Sample.ext (Sample.serves Sample.page) url Sample.world →
     r.1 = Returns None ∧ db r.2 = db Sample.world).
Proof.
  intros url r. split; [vm_compute; reflexivity|].
  apply (resolution_marks_bad Sample.ext (Sample.serves Sample.page) 0 url
           Sample.course extern None Sample.world).
  vm_compute; reflexivity.
Defined.

(** C5 as stated fails: when the probe raises, the url is not marked. *)
Lemma network_failure_not_marked_counterexample :
  ¬ (∀ ext session now url course media_type filename w,
       Resolution.from_dump url (db w) = Resolution.DumpTrue →
       Resolution.probe_raises ext session url w →
       url ∈ Database.bad_urls
               (db (Resolution.from_extern_link ext session now url course
                      media_type filename w).2)).
Proof.
  intros H.
  specialize (H Sample.ext Sample.unreachable 0 "https://example.org/notes.pdf"
                Sample.course extern None Sample.world).
  assert (Hin : "https://example.org/notes.pdf" ∈ (∅ : gset string)).
  { apply H; [vm_compute; reflexivity|].
    split; [vm_compute; reflexivity|]. exists "". split; reflexivity. }
  by apply not_elem_of_empty in Hin.
Qed.

Section ResolutionUrls.
Import PreMediaContainer Resolution.
Context (ext : Externals).
Implicit Types (session : Session) (now : Z) (url : string) (course : Course.t)
  (media_type : MediaType) (filename : option string) (w : World) (c : t).

(** A container that is not read from the cache was built from an accepted
    response to the probe, and is stored. *)
Lemma from_extern_link_fresh session now url course media_type filename w c w' :
  from_dump url (db w) = DumpTrue →
  from_extern_link ext session now url course media_type filename w
    = (Returns (Some c), w') →
  ∃ download_url con,
    (pre_resolution ext session url w).1 = Some download_url
    ∧ session (probe_target url download_url) = Responds con
    ∧ accepted_content_type con = true
    ∧ build_container ext now url (probe_target url download_url) course media_type
        filename con = Returns c
    ∧ w' = on_db (Database.add_pre_container c)
             (request (probe_target url download_url)
                (pre_resolution ext session url w).2).
Proof.
  intros Hdump. unfold from_extern_link. rewrite Hdump.
  destruct (isis_ignored_match url); simpl; [intros [=]|].
  destruct (pre_resolution ext session url w) as [[download_url|] w1]; simpl;
    [|intros [=]].
  destruct (session (probe_target url download_url)) as [| |con] eqn:Hs; simpl;
    [intros [=]..|].
  destruct (accepted_content_type con) eqn:Hacc; simpl; [|intros [=]].
  destruct (build_container _ _ _ _ _ _ _ con) as [c'|e] eqn:Hb; simpl; [|intros [=]].
  intros [= -> <-]. by exists download_url, con.
Qed.

Lemma tubcloud_download_nonempty url :
  probe_target url (tubcloud_download url) = tubcloud_download url.
Proof.
  unfold probe_target. pose proof (tubcloud_download_endswith url) as H.
  by destruct (tubcloud_download url).
Qed.

Lemma pre_resolution_tubcloud session url w :
  PyStr.contains "tu-berlin.hosted.exlibrisgroup.com" url = false →
  PyStr.contains "https://drive.google.com/" url = false →
  PyStr.contains "tubcloud.tu-berlin.de" url = true →
  pre_resolution ext session url w = (Some (tubcloud_download url), w).
Proof. intros H1 H2 H3. unfold pre_resolution. by rewrite H1, H2, H3. Qed.

Lemma document_from_api_urls config name url download_url course last_modified
    relative_location size :
  let c := document_from_api ext config name url download_url course last_modified
             relative_location size in
  PreMediaContainer.url c = strip_force_download url
  ∧ PreMediaContainer.download_url c = download_url.
Proof. done. Qed.
End ResolutionUrls.

Section UrlClaims.
Import PreMediaContainer Resolution.

(** C4 fails on the code.  Line 177 tests the empty header name instead of
    [Last-Modified], so a response that has the header, and no header with
    an empty name, gets the time of the clock.  On the sample response the
    header parses to 1445412480 and the container gets the clock's
    1700000000. *)
Theorem last_modified_header_ignored :
  (∀ ext now url download_url course media_type filename con c,
     build_container ext now url download_url course media_type filename con = Returns c →
     headers_get "" (headers con) = None → time c = now)
  ∧ (let r := from_extern_link Sample.ext (Sample.serves Sample.pdf) 1700000000
                "https://example.org/a.pdf" Sample.course document None Sample.world in
     (parsedate_to_timestamp Sample.ext <$> headers_get "Last-Modified" (headers Sample.pdf))
       = Some (Some 1445412480)
     ∧ ∃ c, r.1 = Returns (Some c) ∧ time c = 1700000000).
Proof.
  split; [apply build_container_time|].
  split; [reflexivity|]. eexists. split; vm_compute; reflexivity.
Qed.

(** C7, as the code has it.  External-link resolution stores the url it
    probed with one trailing [?forcedownload=1] cut off as the download url,
    and the given url as the source url.  A tubcloud link (that is neither
    an exlibris nor a Google Drive link) is probed and stored with
    [/download] at its end, appended only if the link does not end in it
    already, so rewriting twice changes nothing.  [document_from_api]
    instead cuts the suffix off the source url and keeps the download url
    as it is given. *)
Theorem url_suffix_normalisation (ext : Externals) :
  (∀ session now url course media_type filename w c w',
     from_dump url (db w) = DumpTrue →
     from_extern_link ext session now url course media_type filename w
       = (Returns (Some c), w') →
     ∃ download_url,
       (pre_resolution ext session url w).1 = Some download_url
       ∧ PreMediaContainer.download_url c
         = strip_force_download (probe_target url download_url)
       ∧ PreMediaContainer.url c = url
       ∧ Database.get_pre_container_by_url url (db w') = Some c)
  ∧ (∀ s, (PyStr.endswith s force_download = true →
           strip_force_download s +:+ force_download = s)
          ∧ (PyStr.endswith s force_download = false → strip_force_download s = s))
  ∧ (∀ session url w,
       PyStr.contains "tu-berlin.hosted.exlibrisgroup.com" url = false →
       PyStr.contains "https://drive.google.com/" url = false →
       PyStr.contains "tubcloud.tu-berlin.de" url = true →
       pre_resolution ext session url w = (Some (tubcloud_download url), w))
  ∧ (∀ url,
       PyStr.endswith (tubcloud_download url) "/download" = true
       ∧ (PyStr.endswith url "/download" = true → tubcloud_download url = url)
       ∧ (PyStr.endswith url "/download" = false →
          tubcloud_download url = url +:+ "/download")
       ∧ tubcloud_download (tubcloud_download url) = tubcloud_download url
       ∧ strip_force_download (probe_target url (tubcloud_download url))
         = tubcloud_download url)
  ∧ (∀ config name url download_url course last_modified relative_location size,
       let c := document_from_api ext config name url download_url course last_modified
                  relative_location size in
       PreMediaContainer.url c = strip_force_download url
       ∧ PreMediaContainer.download_url c = download_url)
  ∧ (let resolved url :=
       (from_extern_link Sample.ext (Sample.serves Sample.pdf) 0 url Sample.course
          extern None Sample.world).1 in
     (∃ c, resolved "https://example.org/a.pdf?forcedownload=1" = Returns (Some c)
           ∧ PreMediaContainer.download_url c = "https://example.org/a.pdf")
     ∧ (∃ c, resolved "https://tubcloud.tu-berlin.de/s/abc" = Returns (Some c)
             ∧ PreMediaContainer.download_url c
               = "https://tubcloud.tu-berlin.de/s/abc/download")
     ∧ (∃ c, resolved "https://tubcloud.tu-berlin.de/s/abc/download" = Returns (Some c)
             ∧ PreMediaContainer.download_url c
               = "https://tubcloud.tu-berlin.de/s/abc/download")).
Proof.
  split; [|split; [|split; [|split; [|split]]]].
  - intros session now url course media_type filename w c w' Hdump Hres.
    destruct (from_extern_link_fresh ext _ _ _ _ _ _ _ _ _ Hdump Hres)
      as (download_url & con & Hpre & _ & _ & Hb & _).
    apply build_container_url in Hb as [Hu Hd].
    exists download_url. split; [done|]. split; [done|]. split; [done|].
    by destruct (from_extern_link_Some ext _ _ _ _ _ _ _ _ _ Hres) as [_ ?].
  - apply strip_force_download_spec.
  - apply pre_resolution_tubcloud.
  - intros url. split; [apply tubcloud_download_endswith|].
    split; [by unfold tubcloud_download; intros ->|].
    split; [by unfold tubcloud_download; intros ->|].
    split; [apply tubcloud_download_idem|].
    rewrite tubcloud_download_nonempty. unfold strip_force_download.
    by rewrite endswith_download_not_forced by apply tubcloud_download_endswith.
  - intros. apply document_from_api_urls.
  - intros resolved. subst resolved.
    split; [|split]; eexists; split; vm_compute; reflexivity.
Qed.

(** C7 as stated fails for [document_from_api]: the download url keeps its
    [?forcedownload=1]. *)
Lemma document_from_api_keeps_suffix_counterexample :
  ¬ (∀ ext config name url download_url course last_modified relative_location size,
       PyStr.endswith download_url force_download = true →
       PreMediaContainer.download_url
         (document_from_api ext config name url download_url course last_modified
            relative_location size)
       = strip_force_download download_url).
Proof.
  intros H.
  specialize (H Sample.ext Sample.config "f.pdf"
                "https://isis.tu-berlin.de/webservice/pluginfile.php/1/f.pdf?forcedownload=1"
                "https://isis.tu-berlin.de/webservice/pluginfile.php/1/f.pdf?forcedownload=1"
                Sample.course 5 (Some "/week 1/") 33 eq_refl).
  vm_compute in H. discriminate H.
Qed.
End UrlClaims.

(** * Further properties of the code *)

(** ** Conflict resolution: the new names *)

Lemma string_app_inv_head (s a b : string) : s +:+ a = s +:+ b → a = b.
Proof.
  induction s as [|c s IH]; [done|]. rewrite !app_String. intros [= H]. by apply IH.
Qed.

Lemma string_app_inv_tail (a b s : string) : a +:+ s = b +:+ s → a = b.
Proof.
  revert b. induction a as [|c a IH]; intros [|c' b] H.
  - done.
  - apply (f_equal String.length) in H. rewrite !string_length_app in H.
    simpl in H. lia.
  - apply (f_equal String.length) in H. rewrite !string_length_app in H.
    simpl in H. lia.
  - rewrite !app_String in H. injection H as -> H. f_equal. by apply IH.
Qed.

(** The numbers given to the members of a sub-group yield different names. *)
Lemma new_name_inj (i j : nat) (name : string) :
  Conflicts.new_name i name = Conflicts.new_name j name → i = j.
Proof.
  unfold Conflicts.new_name. destruct (splitext name) as [b e]. intros H.
  apply string_app_inv_head, string_app_inv_head, string_app_inv_tail, str_inj in H.
  lia.
Qed.

Section ConflictExtras.
Import PreMediaContainer Conflicts.

(** After the pass, two descriptors that shared name and directory before
    it have different display names. *)
Theorem colliding_descriptors_get_distinct_names (l : list t) (i j : nat) (a b : t) :
  l !! i = Some a → l !! j = Some b → i ≠ j → collide a b →
  ∃ a' b', resolve l !! i = Some a' ∧ resolve l !! j = Some b'
           ∧ _name a' ≠ _name b'.
Proof.
  intros Hi Hj Hne Hc.
  assert (Hgroup : ordered_members l b = ordered_members l a).
  { unfold ordered_members. by rewrite (members_collide l a b). }
  assert (Hlen : (1 < length (ordered_members l a))%nat).
  { destruct (decide (length (ordered_members l a) ≤ 1)%nat) as [Hle|]; [|lia].
    exfalso. apply Hne. symmetry.
    apply (proj1 (ordered_members_alone l i a Hi) Hle j b Hj).
    destruct Hc; by split. }
  destruct (resolve_lookup_renamed l i a Hi Hlen) as (i1 & Hi1 & Ha).
  destruct (resolve_lookup_renamed l j b Hj) as (i2 & Hi2 & Hb); [by rewrite Hgroup|].
  rewrite Hgroup in Hi2.
  eexists _, _. split; [exact Ha|]. split; [exact Hb|]. simpl.
  destruct Hc as [Hn _]. rewrite <- Hn. intros Heq%new_name_inj. subst i2.
  rewrite Hi1 in Hi2. by injection Hi2.
Qed.

Lemma colliding_descriptors_get_distinct_names_witness :
  let d t0 := mk "notes.pdf" "u" "u" "dir" t0 1 document (-1) None in
  ∃ a' b', resolve [d 7; d 3] !! 0%nat = Some a' ∧ resolve [d 7; d 3] !! 1%nat = Some b'
           ∧ _name a' ≠ _name b'.
Proof.
  intros d.
  apply (colliding_descriptors_get_distinct_names [d 7; d 3] 0 1 (d 7) (d 3));
    [reflexivity|reflexivity|lia|split; reflexivity].
Defined.

(** The pass returns a list as it is exactly when no two of its descriptors
    share name and directory. *)
Theorem resolve_is_identity_iff_no_conflicts (l : list t) :
  resolve l = l ↔ no_conflicts l.
Proof.
  split.
  - intros Heq i j a b Hi Hj Hne Hc.
    assert (Hlen : (1 < length (ordered_members l a))%nat).
    { destruct (decide (length (ordered_members l a) ≤ 1)%nat) as [Hle|]; [|lia].
      exfalso. apply Hne. symmetry.
      apply (proj1 (ordered_members_alone l i a Hi) Hle j b Hj).
      destruct Hc; by split. }
    destruct (resolve_lookup_renamed l i a Hi Hlen) as (i1 & _ & Ha).
    rewrite Heq, Hi in Ha. injection Ha as Ha.
    apply (f_equal _name) in Ha. simpl in Ha. symmetry in Ha.
    by apply new_name_neq in Ha.
  - intros Hno. apply list_eq. intros k.
    destruct (l !! k) as [d|] eqn:Hk.
    + apply resolve_lookup_unchanged; [done|].
      apply (ordered_members_alone l k d Hk). intros j d' Hj Hc.
      destruct (decide (j = k)) as [|Hne]; [done|].
      exfalso. by apply (Hno j k d' d Hj Hk Hne).
    + apply lookup_ge_None. rewrite resolve_length. by apply lookup_ge_None.
Qed.
End ConflictExtras.

(** ** Resolution: requests, cache growth and failures *)

Section ResolutionExtras.
Import PreMediaContainer Resolution.
Context (ext : Externals).
Implicit Types (session : Session) (now : Z) (url : string) (course : Course.t)
  (media_type : MediaType) (filename : option string) (w : World) (c : t).

Lemma pre_resolution_requested session url w :
  ∃ new, requested (pre_resolution ext session url w).2 = requested w ++ new
         ∧ (length new ≤ 1)%nat
         ∧ (PyStr.contains "tu-berlin.hosted.exlibrisgroup.com" url = true
            ∨ PyStr.contains "https://drive.google.com/" url = false → new = []).
Proof.
  unfold pre_resolution.
  destruct (PyStr.contains "tu-berlin.hosted.exlibrisgroup.com" url) eqn:He.
  { exists []. simpl. rewrite app_nil_r. split; [done|]. split; [lia|done]. }
  destruct (PyStr.contains "https://drive.google.com/" url) eqn:Hg.
  2:{ exists []. destruct (PyStr.contains "tubcloud.tu-berlin.de" url); simpl;
        rewrite app_nil_r; (split; [done|]); (split; [lia|done]). }
  destruct (parse_google_drive_url ext url) as [drive_id|].
  2:{ exists []. simpl. rewrite app_nil_r. split; [done|]. split; [lia|done]. }
  exists ["https://drive.google.com/uc?id=" +:+ drive_id].
  split; [by repeat case_match|]. split; [simpl; lia|]. by intros [?|?].
Qed.

(** A resolution only appends to the list of requests, at most two urls,
    none for a url that is marked, cached or ignored, and at most one
    unless the url is a Google Drive link. *)
Theorem resolution_requests session now url course media_type filename w :
  let w' := (from_extern_link ext session now url course media_type filename w).2 in
  ∃ new, requested w' = requested w ++ new
         ∧ (length new ≤ 2)%nat
         ∧ (from_dump url (db w) ≠ DumpTrue → new = [])
         ∧ (isis_ignored_match url = true → new = [])
         ∧ (PyStr.contains "tu-berlin.hosted.exlibrisgroup.com" url = true
            ∨ PyStr.contains "https://drive.google.com/" url = false →
            (length new ≤ 1)%nat).
Proof.
  unfold from_extern_link.
  assert (Hnone : ∃ new, requested w = requested w ++ new
         ∧ (length new ≤ 2)%nat
         ∧ (from_dump url (db w) ≠ DumpTrue → new = [])
         ∧ (isis_ignored_match url = true → new = [])
         ∧ (PyStr.contains "tu-berlin.hosted.exlibrisgroup.com" url = true
            ∨ PyStr.contains "https://drive.google.com/" url = false →
            (length new ≤ 1)%nat)).
  { exists []. rewrite app_nil_r. simpl. repeat split; (done || lia). }
  destruct (from_dump url (db w)) eqn:Hdump; simpl; [done| |done].
  destruct (isis_ignored_match url) eqn:Hign; simpl; [done|].
  destruct (pre_resolution_requested session url w) as (new0 & Hreq & Hlen & Hnog).
  destruct (pre_resolution ext session url w) as [[download_url|] w1]; simpl in *.
  - exists (new0 ++ [probe_target url download_url]).
    split.
    { destruct (session (probe_target url download_url)) as [| |con]; simpl;
        [| |destruct (accepted_content_type con); simpl;
            [destruct (build_container _ _ _ _ _ _ _ con)|]];
        simpl; by rewrite Hreq, app_assoc. }
    rewrite length_app. simpl. split; [lia|]. split; [done|]. split; [done|].
    intros H. rewrite (Hnog H). simpl. lia.
  - exists new0. split; [done|]. split; [lia|]. split; [done|]. split; [done|].
    intros H. rewrite (Hnog H). simpl. lia.
Qed.

(** A resolution never removes or overwrites a cache entry and never
    unmarks a url; it keeps marked urls apart from cached ones and keeps
    every entry stored under the source url of its container. *)
Theorem resolution_keeps_cache session now url course media_type filename w :
  let w' := (from_extern_link ext session now url course media_type filename w).2 in
  Database.bad_urls (db w) ⊆ Database.bad_urls (db w')
  ∧ Database.pre_containers (db w) ⊆ Database.pre_containers (db w')
  ∧ ((∀ u, u ∈ Database.bad_urls (db w) → Database.pre_containers (db w) !! u = None) →
     ∀ u, u ∈ Database.bad_urls (db w') → Database.pre_containers (db w') !! u = None)
  ∧ ((∀ u c, Database.pre_containers (db w) !! u = Some c → PreMediaContainer.url c = u) →
     ∀ u c, Database.pre_containers (db w') !! u = Some c → PreMediaContainer.url c = u).
Proof.
  intros w'. subst w'.
  destruct (from_extern_link_db ext session now url course media_type filename w)
    as [->|[Hdump [->|(c' & Hurl & ->)]]]; [done| |];
    apply from_dump_True in Hdump as [Hbad Hnone]; simpl.
  - split; [set_solver|]. split; [done|]. split; [|done].
    intros Hdisj u [->%elem_of_singleton|Hu]%elem_of_union; [done|by apply Hdisj].
  - split; [done|]. rewrite Hurl. split; [by apply insert_subseteq|]. split.
    + intros Hdisj u Hu. rewrite lookup_insert_ne; [by apply Hdisj|].
      intros <-. done.
    + intros Hkey u c. rewrite lookup_insert.
      case_decide; [by intros [= <-]; subst|apply Hkey].
Qed.


(** Only a Google Drive link can fail before the probe: no file id in the
    url, a failed first request, or no confirmation link.  Such a failure
    returns no descriptor and leaves the cache as it was, so the url is
    tried again by the next resolution. *)
Theorem drive_failure_is_not_cached session now url course media_type filename w :
  from_dump url (db w) = DumpTrue →
  isis_ignored_match url = false →
  (pre_resolution ext session url w).1 = None →
  let r := from_extern_link ext session now url course media_type filename w in
  PyStr.contains "https://drive.google.com/" url = true
  ∧ r.1 = Returns None ∧ db r.2 = db w ∧ from_dump url (db r.2) = DumpTrue.
Proof.
  intros Hdump Hign Hpre r. subst r. split.
  { revert Hpre. unfold pre_resolution. by repeat case_match. }
  unfold from_extern_link. rewrite Hdump, Hign.
  pose proof (pre_resolution_db ext session url w) as Hdb.
  destruct (pre_resolution ext session url w) as [d w1]. simpl in Hpre, Hdb. subst d.
  simpl. by rewrite Hdb.
Qed.
End ResolutionExtras.


Lemma drive_failure_is_not_cached_witness :
  let url := "https://drive.google.com/file/d/0B1/view" in
  let r := Resolution.from_extern_link Sample.ext (Sample.serves Sample.pdf) 0 url
             Sample.course extern None Sample.world in
  PyStr.contains "https://drive.google.com/" url = true
  ∧ r.1 = Returns None ∧ db r.2 = db Sample.world
  ∧ Resolution.from_dump url (db r.2) = Resolution.DumpTrue.
Proof.
  intros url r.
  apply (drive_failure_is_not_cached Sample.ext (Sample.serves Sample.pdf) 0 url
           Sample.course extern None Sample.world);
    vm_compute; reflexivity.
Defined.

(** ** The set of external links *)

Section ExternalLinkFacts.
Implicit Types (x y : ExternalLink.t) (links : list ExternalLink.t).

Lemma ExternalLink_eq_refl x : ExternalLink.eq x x = true.
Proof.
  unfold ExternalLink.eq. rewrite String.eqb_refl. simpl.
  by rewrite !bool_decide_eq_true_2.
Qed.

Lemma ExternalLink_add_spec x links :
  ∃ added, ExternalLink.add x links = links ++ added
           ∧ (added = [] ∨ added = [x])
           ∧ ∃ y, y ∈ ExternalLink.add x links ∧ ExternalLink.eq x y = true.
Proof.
  unfold ExternalLink.add. destruct (existsb (ExternalLink.eq x) links) eqn:E.
  - exists []. rewrite app_nil_r. split; [done|]. split; [by left|].
    apply existsb_exists in E as (y & Hy & Heq). exists y.
    split; [by apply list_elem_of_In|done].
  - exists [x]. split; [done|]. split; [by right|]. exists x.
    split; [|apply ExternalLink_eq_refl]. apply elem_of_app. right. apply list_elem_of_here.
Qed.

(** Folding a step that only appends links appends links. *)
Lemma foldl_appends {B} (P : ExternalLink.t → Prop)
    (step : list ExternalLink.t → B → list ExternalLink.t) (xs : list B) links :
  (∀ acc b, ∃ added, step acc b = acc ++ added ∧ Forall P added) →
  ∃ added, foldl step links xs = links ++ added ∧ Forall P added.
Proof.
  intros Hstep. revert links. induction xs as [|b xs IH]; intros links.
  - exists []. by rewrite app_nil_r.
  - destruct (Hstep links b) as (a1 & E1 & F1). simpl. rewrite E1.
    destruct (IH (links ++ a1)) as (a2 & E2 & F2). exists (a1 ++ a2).
    rewrite E2, app_assoc. split; [done|]. by apply Forall_app.
Qed.

(** A link that is in the set up to equality stays there while links are
    only appended. *)
Lemma present_app x links added :
  (∃ y, y ∈ links ∧ ExternalLink.eq x y = true) →
  ∃ y, y ∈ links ++ added ∧ ExternalLink.eq x y = true.
Proof. intros (y & Hy & Heq). exists y. split; [|done]. apply elem_of_app. by left. Qed.
End ExternalLinkFacts.

(** ** The crawl of a course *)

(** Closes a goal that asks for the links a step adds when it adds none. *)
Ltac nothing_added :=
  exists []; rewrite ?app_nil_r; split; [by repeat case_match|constructor].

Section CrawlFacts.
Import Crawl CrawlSpec.
Context (ext : Externals) (config : Config) (env : Env) (self : Course.t).
Implicit Types (links : list ExternalLink.t) (docs : list PreMediaContainer.t)
  (st : list PreMediaContainer.t * list ExternalLink.t).

Lemma description_link_appends links link :
  ∃ added, description_link env self links link = links ++ added
           ∧ Forall (crawl_added env self) added.
Proof.
  unfold description_link.
  destruct (bool_decide (link ∈ ignored_urls) || bool_decide (link ∈ utils_bad_urls env)).
  { nothing_added. }
  destruct (urlparse_scheme_netloc env link && config_follow_links env) eqn:E.
  2:{ nothing_added. }
  apply andb_true_iff in E as [_ Hf].
  destruct (ExternalLink_add_spec (ExternalLink.mk link self extern None) links)
    as (added & -> & [->| ->] & _).
  - nothing_added.
  - eexists. split; [done|]. by repeat constructor.
Qed.

Lemma content_file_spec st file :
  ∃ added,
    content_file ext config env self st file
    = (st.1 ++ (document_of ext config self <$>
                  filter (λ file,
                            ¬ (config_follow_links env = true ∧ file_type file = Some "url")
                            ∧ fileurl file ∉ utils_bad_urls env) [file]),
       st.2 ++ added)
    ∧ Forall (crawl_added env self) added.
Proof.
  unfold content_file. rewrite filter_cons, filter_nil.
  destruct (config_follow_links env) eqn:Hf; simpl.
  - case_bool_decide as Ht.
    + rewrite decide_False by tauto. simpl.
      destruct (ExternalLink_add_spec (ExternalLink.mk (fileurl file) self extern None) st.2)
        as (added & -> & [->| ->] & _).
      * nothing_added.
      * exists [ExternalLink.mk (fileurl file) self extern None].
        rewrite app_nil_r. split; [done|]. by repeat constructor.
    + case_bool_decide as Hb.
      * rewrite decide_False by tauto. simpl. destruct st. nothing_added.
      * rewrite decide_True by (split; [by intros [_ ?]|done]). nothing_added.
  - case_bool_decide as Hb.
    + rewrite decide_False by tauto. simpl. destruct st. nothing_added.
    + rewrite decide_True by (split; [by intros [? _]|done]). nothing_added.
Qed.

Lemma content_files_spec st files :
  ∃ added,
    foldl (content_file ext config env self) st files
    = (st.1 ++ (document_of ext config self <$>
                  filter (λ file,
                            ¬ (config_follow_links env = true ∧ file_type file = Some "url")
                            ∧ fileurl file ∉ utils_bad_urls env) files),
       st.2 ++ added)
    ∧ Forall (crawl_added env self) added.
Proof.
  revert st. induction files as [|file files IH]; intros st.
  - destruct st. simpl. nothing_added.
  - destruct (content_file_spec st file) as (a1 & E1 & F1).
    cbn [foldl]. rewrite E1.
    destruct (IH (st.1 ++ (document_of ext config self <$>
                  filter (λ file,
                            ¬ (config_follow_links env = true ∧ file_type file = Some "url")
                            ∧ fileurl file ∉ utils_bad_urls env) [file]),
                  st.2 ++ a1)) as (a2 & E2 & F2).
    exists (a1 ++ a2). rewrite E2. simpl. split; [|by apply Forall_app].
    rewrite <- !app_assoc, <- fmap_app, <- filter_app. done.
Qed.

Lemma course_module_spec st module :
  ∃ added,
    course_module ext config env self st module
    = (st.1 ++ (document_of ext config self <$> kept_files env module), st.2 ++ added)
    ∧ Forall (crawl_added env self) added.
Proof.
  unfold course_module, kept_files.
  assert (∃ a0, match description module with
                | Some text => foldl (description_link env self) st.2
                                 (url_finder_findall env text)
                | None => st.2
                end = st.2 ++ a0 ∧ Forall (crawl_added env self) a0) as (a0 & -> & F0).
  { destruct (description module) as [text|].
    - apply foldl_appends. intros acc b. apply description_link_appends.
    - nothing_added. }
  destruct (module_url module) as [url|].
  2:{ exists a0. simpl. by rewrite app_nil_r. }
  destruct (contents module) as [files|].
  2:{ exists a0. repeat case_match; simpl; by rewrite app_nil_r. }
  destruct (bool_decide (url ∈ ignored_urls) || bool_decide (url ∈ utils_bad_urls env)); simpl.
  { exists a0. by rewrite app_nil_r. }
  destruct (isis_ignored_match url).
  { exists a0. simpl. by rewrite app_nil_r. }
  destruct (content_files_spec (st.1, st.2 ++ a0) files) as (a1 & E1 & F1).
  exists (a0 ++ a1). rewrite E1. simpl. rewrite app_assoc. split; [done|].
  by apply Forall_app.
Qed.

Lemma course_modules_spec st (ms : list CourseModule) :
  ∃ added,
    foldl (course_module ext config env self) st ms
    = (st.1 ++ (document_of ext config self <$> concat (kept_files env <$> ms)),
       st.2 ++ added)
    ∧ Forall (crawl_added env self) added.
Proof.
  revert st. induction ms as [|m ms IH]; intros st.
  - destruct st. simpl. nothing_added.
  - destruct (course_module_spec st m) as (a1 & E1 & F1).
    cbn [foldl]. rewrite E1.
    destruct (IH (st.1 ++ (document_of ext config self <$> kept_files env m), st.2 ++ a1))
      as (a2 & E2 & F2).
    exists (a1 ++ a2). rewrite E2. cbn [fst snd]. split; [|by apply Forall_app].
    rewrite fmap_cons. cbn [concat]. by rewrite <- !app_assoc, fmap_app.
Qed.

Lemma download_documents_spec (weeks : list Week) links :
  ∃ added,
    download_documents ext config env (Some weeks) self links
    = (document_of ext config self <$> concat (kept_files env <$> all_modules weeks),
       links ++ added)
    ∧ Forall (crawl_added env self) added.
Proof.
  unfold download_documents, all_modules.
  assert (∀ st, ∃ added,
    foldl (λ st week, foldl (course_module ext config env self) st (modules week)) st weeks
    = (st.1 ++ (document_of ext config self <$>
                  concat (kept_files env <$> concat (modules <$> weeks))),
       st.2 ++ added)
    ∧ Forall (crawl_added env self) added) as H.
  { induction weeks as [|week weeks IH]; intros st.
    - destruct st. simpl. nothing_added.
    - destruct (course_modules_spec st (modules week)) as (a1 & E1 & F1).
      cbn [foldl]. rewrite E1.
      destruct (IH (st.1 ++ (document_of ext config self <$>
                               concat (kept_files env <$> modules week)), st.2 ++ a1))
        as (a2 & E2 & F2).
      exists (a1 ++ a2). rewrite E2. cbn [fst snd]. split; [|by apply Forall_app].
      rewrite fmap_cons. cbn [concat].
      by rewrite fmap_app, concat_app, fmap_app, <- !app_assoc. }
  destruct (H ([], links)) as (added & E & F). exists added. by rewrite E.
Qed.
End CrawlFacts.

Section CrawlPresence.
Import Crawl CrawlSpec.

(** [x] is in the set of links, up to the equality of links. *)
Lemma present_foldl {S B} (links_of : S → list ExternalLink.t) (step : S → B → S)
    (x : ExternalLink.t) (xs : list B) (b : B) (st : S) :
  (∀ st b, ∃ added, links_of (step st b) = links_of st ++ added) →
  b ∈ xs →
  (∀ st, ∃ y, y ∈ links_of (step st b) ∧ ExternalLink.eq x y = true) →
  ∃ y, y ∈ links_of (foldl step st xs) ∧ ExternalLink.eq x y = true.
Proof.
  intros Hstep Hb Hadd.
  assert (Hkeep : ∀ ys st, (∃ y, y ∈ links_of st ∧ ExternalLink.eq x y = true) →
                           ∃ y, y ∈ links_of (foldl step st ys) ∧ ExternalLink.eq x y = true).
  { induction ys as [|b' ys IH]; intros st' Hp; [done|]. simpl. apply IH.
    destruct (Hstep st' b') as (added & ->). by apply present_app. }
  revert st. induction xs as [|b' xs IH]; intros st; [by apply elem_of_nil in Hb|].
  simpl. apply elem_of_cons in Hb as [->|Hb]; [apply Hkeep, Hadd|by apply IH].
Qed.

Context (ext : Externals) (config : Config) (env : Env) (self : Course.t).

Lemma description_link_present links link :
  link ∉ ignored_urls → link ∉ utils_bad_urls env →
  urlparse_scheme_netloc env link = true → config_follow_links env = true →
  ∃ y, y ∈ description_link env self links link
       ∧ ExternalLink.eq (ExternalLink.mk link self extern None) y = true.
Proof.
  intros Hi Hb Hp Hf. unfold description_link.
  rewrite !bool_decide_eq_false_2, Hp, Hf by done. simpl.
  by destruct (ExternalLink_add_spec (ExternalLink.mk link self extern None) links)
    as (_ & _ & _ & ?).
Qed.

(** The links of a module's description are harvested first; the rest of
    the module only appends. *)
Lemma course_module_harvest st module :
  ∃ added,
    (course_module ext config env self st module).2
    = match description module with
      | Some text => foldl (description_link env self) st.2 (url_finder_findall env text)
      | None => st.2
      end ++ added.
Proof.
  unfold course_module.
  set (harvest := match description module with
                  | Some text => foldl (description_link env self) st.2
                                   (url_finder_findall env text)
                  | None => st.2
                  end).
  destruct (module_url module) as [url|]; [|exists []; simpl; by rewrite app_nil_r].
  destruct (bool_decide (url ∈ ignored_urls) || bool_decide (url ∈ utils_bad_urls env));
    [exists []; simpl; by rewrite app_nil_r|].
  destruct (isis_ignored_match url); [exists []; simpl; by rewrite app_nil_r|].
  destruct (contents module) as [files|]; [|exists []; simpl; by rewrite app_nil_r].
  destruct (content_files_spec ext config env self (st.1, harvest) files) as (a & -> & _).
  by exists a.
Qed.

Lemma course_module_appends st module :
  ∃ added, (course_module ext config env self st module).2 = st.2 ++ added.
Proof.
  destruct (course_module_spec ext config env self st module) as (a & -> & _). by exists a.
Qed.

Lemma course_modules_appends st (ms : list CourseModule) :
  ∃ added, (foldl (course_module ext config env self) st ms).2 = st.2 ++ added.
Proof.
  destruct (course_modules_spec ext config env self st ms) as (a & -> & _). by exists a.
Qed.

Lemma course_module_description_present st module text link :
  description module = Some text → link ∈ url_finder_findall env text →
  link ∉ ignored_urls → link ∉ utils_bad_urls env →
  urlparse_scheme_netloc env link = true → config_follow_links env = true →
  ∃ y, y ∈ (course_module ext config env self st module).2
       ∧ ExternalLink.eq (ExternalLink.mk link self extern None) y = true.
Proof.
  intros Hd Hl Hi Hb Hp Hf.
  destruct (course_module_harvest st module) as (added & ->). rewrite Hd.
  apply present_app.
  apply (present_foldl (λ links, links) (description_link env self) _ _ link); [|done|].
  - intros links b.
    destruct (description_link_appends env self links b) as (a & -> & _). by exists a.
  - intros links. by apply description_link_present.
Qed.
End CrawlPresence.

Section CrawlClaims.
Import Crawl CrawlSpec.
Context (ext : Externals) (config : Config) (env : Env) (self : Course.t).

(** The documents that [download_documents] returns are those built for
    the kept files of the modules, in the order of the content tree,
    whatever [external_links] holds; each has the id of the course and the
    media type [document].  Without an answer it returns nothing and leaves
    the links as they are. *)
Theorem download_documents_documents (weeks : list Week) (links : list ExternalLink.t) :
  let r := download_documents ext config env (Some weeks) self links in
  r.1 = (document_of ext config self <$> concat (kept_files env <$> all_modules weeks))
  ∧ Forall (λ d, PreMediaContainer.course_id d = Course.course_id self
                 ∧ PreMediaContainer.media_type d = document) r.1
  ∧ (length r.1 ≤ length (concat ((λ m, default [] (contents m)) <$> all_modules weeks)))%nat
  ∧ download_documents ext config env None self links = ([], links).
Proof.
  intros r. subst r.
  destruct (download_documents_spec ext config env self weeks links) as (added & -> & _).
  simpl. split; [done|]. split; [|split; [|done]].
  - apply Forall_fmap, Forall_forall. by intros file _.
  - rewrite length_fmap. induction (all_modules weeks) as [|m ms IH]; [done|].
    rewrite !fmap_cons. cbn [concat]. rewrite !length_app.
    apply Nat.add_le_mono; [|done]. unfold kept_files.
    destruct (module_url m), (contents m); simpl; try lia.
    case_match; [simpl; lia|apply length_filter].
Qed.

(** The crawl of a course only appends to [external_links], and what it
    appends are links of this course with media type [extern] and no name;
    it appends nothing unless [config.follow_links] is set. *)
Theorem download_documents_links (content : option (list Week))
    (links : list ExternalLink.t) :
  ∃ added,
    (download_documents ext config env content self links).2 = links ++ added
    ∧ Forall (content_link self) added
    ∧ (config_follow_links env = false → added = []).
Proof.
  destruct content as [weeks|].
  - destruct (download_documents_spec ext config env self weeks links) as (added & -> & F).
    exists added. split; [done|]. split.
    + eapply Forall_impl; [exact F|]. by intros l [? _].
    + intros Hf. destruct added as [|l added]; [done|].
      apply Forall_cons in F as [[_ Hl] _]. congruence.
  - exists []. simpl. by rewrite app_nil_r.
Qed.

(** A url found in the description of a module is collected as an external
    link whenever links are followed and the url is neither ignored nor
    bad and has a scheme and a host: this does not depend on the module
    itself, whose own url may be ignored or missing. *)
Theorem description_links_are_collected (weeks : list Week) (links : list ExternalLink.t)
    (module : CourseModule) (text link : string) :
  module ∈ all_modules weeks →
  description module = Some text →
  link ∈ url_finder_findall env text →
  link ∉ ignored_urls → link ∉ utils_bad_urls env →
  urlparse_scheme_netloc env link = true →
  config_follow_links env = true →
  ∃ y, y ∈ (download_documents ext config env (Some weeks) self links).2
       ∧ ExternalLink.eq (ExternalLink.mk link self extern None) y = true.
Proof.
  intros Hm Hd Hl Hi Hb Hp Hf. unfold all_modules in Hm.
  apply elem_of_concat in Hm as (ms & Hm & Hms).
  apply list_elem_of_fmap in Hms as (week & -> & Hweek).
  unfold download_documents.
  apply (present_foldl snd
           (λ st week, foldl (course_module ext config env self) st (modules week))
           _ weeks week); [|done|].
  - intros st w. apply course_modules_appends.
  - intros st.
    apply (present_foldl snd (course_module ext config env self) _ (modules week) module);
      [|done|].
    + intros st' m. apply course_module_appends.
    + intros st'. by eapply course_module_description_present.
Qed.

(** When links are not followed, an attachment of type [url] is not
    skipped: like any other file of a kept module it is returned as a
    document. *)
Theorem link_attachment_without_follow (weeks : list Week) (links : list ExternalLink.t)
    (module : CourseModule) (url : string) (files : list File) (file : File) :
  config_follow_links env = false →
  module ∈ all_modules weeks →
  module_url module = Some url →
  url ∉ ignored_urls → url ∉ utils_bad_urls env → isis_ignored_match url = false →
  contents module = Some files → file ∈ files →
  file_type file = Some "url" → fileurl file ∉ utils_bad_urls env →
  document_of ext config self file
    ∈ (download_documents ext config env (Some weeks) self links).1.
Proof.
  intros Hf Hm Hu Hi Hb Hig Hc Hfile Ht Hfb.
  destruct (download_documents_spec ext config env self weeks links) as (added & -> & _).
  simpl. apply list_elem_of_fmap_2. apply elem_of_concat.
  exists (kept_files env module). split; [|by apply list_elem_of_fmap_2].
  unfold kept_files. rewrite Hu, Hc, Hig, !bool_decide_eq_false_2 by done. simpl.
  apply list_elem_of_filter. split; [|done]. split; [|done]. intros [? _]. congruence.
Qed.
End CrawlClaims.

Lemma description_links_are_collected_witness :
  ∃ y, y ∈ (Crawl.download_documents Sample.ext Sample.config (CrawlSample.env true)
              (Some CrawlSample.weeks) Sample.course []).2
       ∧ ExternalLink.eq
           (ExternalLink.mk "https://example.org/rules" Sample.course extern None) y = true.
Proof.
  apply (description_links_are_collected Sample.ext Sample.config (CrawlSample.env true)
           Sample.course CrawlSample.weeks [] CrawlSample.forum
           "https://example.org/rules" "https://example.org/rules").
  - apply list_elem_of_here.
  - reflexivity.
  - apply list_elem_of_here.
  - by repeat (apply not_elem_of_cons; split; [done|]); apply not_elem_of_nil.
  - apply not_elem_of_empty.
  - reflexivity.
  - reflexivity.
Defined.

Lemma link_attachment_without_follow_witness :
  CrawlSpec.document_of Sample.ext Sample.config Sample.course CrawlSample.weblink
    ∈ (Crawl.download_documents Sample.ext Sample.config (CrawlSample.env false)
         (Some CrawlSample.weeks) Sample.course []).1.
Proof.
  apply (link_attachment_without_follow Sample.ext Sample.config (CrawlSample.env false)
           Sample.course CrawlSample.weeks [] CrawlSample.resource
           "https://isis.tu-berlin.de/mod/resource/view.php?id=5"
           [CrawlSample.slides; CrawlSample.weblink] CrawlSample.weblink).
  - reflexivity.
  - apply list_elem_of_further, list_elem_of_here.
  - reflexivity.
  - by repeat (apply not_elem_of_cons; split; [done|]); apply not_elem_of_nil.
  - apply not_elem_of_empty.
  - vm_compute. reflexivity.
  - reflexivity.
  - apply list_elem_of_further, list_elem_of_here.
  - reflexivity.
  - apply not_elem_of_empty.
Defined.

(** ** Videos, assignments and the discovery without threads *)

Section DiscoveryFacts.
Import Crawl CrawlSpec DiscoverySpec.

Lemma ExternalLink_update_spec (xs links : list ExternalLink.t) :
  ∃ added, ExternalLink.update xs links = links ++ added
           ∧ Forall (λ l, l ∈ xs) added
           ∧ ∀ x, x ∈ xs → ∃ y, y ∈ ExternalLink.update xs links
                                ∧ ExternalLink.eq x y = true.
Proof.
  unfold ExternalLink.update. split_and?.
  assert (Happ : ∀ acc b, ∃ added, ExternalLink.add b acc = acc ++ added).
  { intros acc b. destruct (ExternalLink_add_spec b acc) as (a & -> & _). by exists a. }
  assert (∃ added, foldl (λ acc x, ExternalLink.add x acc) links xs = links ++ added
                   ∧ Forall (λ l, l ∈ xs) added) as (added & E & F).
  { revert links. induction xs as [|x xs IH]; intros links.
    - exists []. by rewrite app_nil_r.
    - simpl. destruct (ExternalLink_add_spec x links) as (a1 & -> & Ha1 & _).
      destruct (IH (links ++ a1)) as (a2 & -> & F2).
      exists (a1 ++ a2). rewrite app_assoc. split; [done|]. apply Forall_app. split.
      + destruct Ha1 as [->| ->]; repeat constructor.
      + eapply Forall_impl; [exact F2|]. intros l Hl. by apply list_elem_of_further. }
  exists added. split; [done|]. split; [done|].
  intros x Hx.
  apply (present_foldl (λ l, l) (λ acc x, ExternalLink.add x acc) x xs x links);
    [done|done|].
  intros acc. by destruct (ExternalLink_add_spec x acc) as (_ & _ & _ & ?).
Qed.

Lemma download_documents_independent ext config env content self links :
  (download_documents ext config env content self links).1
  = (download_documents ext config env content self []).1.
Proof.
  destruct content as [weeks|]; [|done].
  destruct (download_documents_spec ext config env self weeks links) as (a & -> & _).
  by destruct (download_documents_spec ext config env self weeks []) as (b & -> & _).
Qed.

Lemma download_documents_appends ext config env self content links :
  ∃ added, (download_documents ext config env content self links).2 = links ++ added
           ∧ Forall (crawl_added env self) added.
Proof.
  destruct content as [weeks|].
  - destruct (download_documents_spec ext config env self weeks links) as (a & -> & F).
    by exists a.
  - exists []. simpl. by rewrite app_nil_r.
Qed.

Lemma find_course_elem_of (courses : list Course.t) entry course :
  course_of courses entry = Some course →
  course ∈ courses ∧ Course.course_id course = assignment_course_id entry.
Proof.
  unfold course_of. intros [Hin Hid]%find_some.
  split; [by apply list_elem_of_In|]. by apply bool_decide_eq_true in Hid.
Qed.

Lemma attachments_loop ext config course assignment (files : list File)
    (all_content : list PreMediaContainer.t) :
  foldl (λ all_content file,
           all_content ++
             [PreMediaContainer.document_from_api ext config (filename file)
                (fileurl file) (fileurl file) course (timemodified file)
                (Some (assignment_name assignment)) (filesize file)])
        all_content files
  = all_content ++ (attachment_of ext config course assignment <$> files).
Proof.
  revert all_content. induction files as [|file files IH]; intros all_content; simpl.
  - by rewrite app_nil_r.
  - rewrite IH. by rewrite <- app_assoc.
Qed.

Lemma assignments_loop ext config course (asgs : list Assignment)
    (all_content : list PreMediaContainer.t) :
  foldl (λ all_content assignment,
           foldl (λ all_content file,
                    all_content ++
                      [PreMediaContainer.document_from_api ext config (filename file)
                         (fileurl file) (fileurl file) course (timemodified file)
                         (Some (assignment_name assignment)) (filesize file)])
                 all_content (introattachments assignment))
        all_content asgs
  = all_content
    ++ concat ((λ assignment, attachment_of ext config course assignment
                                <$> introattachments assignment) <$> asgs).
Proof.
  revert all_content. induction asgs as [|a asgs IH]; intros all_content; simpl.
  - by rewrite app_nil_r.
  - rewrite attachments_loop, IH. by rewrite <- app_assoc.
Qed.

Lemma download_mod_assign_spec ext config courses (entries : list AssignmentCourse) :
  download_mod_assign ext config courses (Some entries)
  = concat (attachments_of ext config courses <$> entries).
Proof.
  unfold download_mod_assign.
  assert (∀ acc,
    foldl (λ all_content _course,
             match List.find (λ item, bool_decide (Course.course_id item
                                                   = assignment_course_id _course)) courses with
             | None => all_content
             | Some course =>
                 if bool_decide (assignment_course_id _course ∈ Course.course_id <$> courses)
                 then
                   foldl
                     (λ all_content assignment,
                        foldl
                          (λ all_content file,
                             all_content ++
                               [PreMediaContainer.document_from_api ext config (filename file)
                                  (fileurl file) (fileurl file) course (timemodified file)
                                  (Some (assignment_name assignment)) (filesize file)])
                          all_content (introattachments assignment))
                     all_content (assignments _course)
                 else all_content
             end) acc entries
    = acc ++ concat (attachments_of ext config courses <$> entries)) as H.
  { induction entries as [|entry entries IH]; intros acc; simpl.
    - by rewrite app_nil_r.
    - rewrite IH. unfold attachments_of at 2, course_of.
      destruct (List.find _ courses) as [course|] eqn:Hfind; [|done].
      destruct (find_course_elem_of courses entry course Hfind) as [Hin Hid].
      rewrite bool_decide_eq_true_2.
      + rewrite assignments_loop. by rewrite <- app_assoc.
      + rewrite <- Hid. by apply list_elem_of_fmap_2. }
  apply (H []).
Qed.

(** The courses that [get_courses] includes are the enumerated courses
    that pass [Course.ok]. *)
Lemma elem_of_get_courses ext config self (res : list CourseInfo.t) c :
  c ∈ RequestHelper.courses (RequestHelper.get_courses ext config self res)
  ↔ c ∈ (Course.from_dict ext config <$> res) ∧ Course.ok config c = true.
Proof.
  unfold RequestHelper.get_courses.
  destruct (get_courses_loop ext config
              (RequestHelper.mk [] [] (RequestHelper.course_id_mapping self)) res)
    as [_ Hok].
  simpl in *. rewrite Hok, sorted_perm. simpl. rewrite list_elem_of_filter. tauto.
Qed.
End DiscoveryFacts.

Section DiscoveryClaims.
Import Crawl CrawlSpec DiscoverySpec.

(** [download_videos] only appends to [external_links]; every link it
    appends is the link of a listed video, of this course, with media type
    [video] and the stripped title followed by the extension as its name;
    afterwards every listed video is in the set.  It does nothing when
    videos are switched off, when the service does not answer, or when the
    answer reports an error. *)
Theorem download_videos_links (env : Env) (videos_res : option VideosJson)
    (self : Course.t) (links : list ExternalLink.t) :
  ∃ added,
    download_videos env videos_res self links = links ++ added
    ∧ Forall (λ l, ∃ videos_json item,
                videos_res = Some videos_json ∧ item ∈ videos videos_json
                ∧ l = video_link env self item) added
    ∧ (config_download_videos env = false → added = [])
    ∧ (videos_res = None → added = [])
    ∧ (∀ videos_json, videos_res = Some videos_json → error videos_json = true →
                      added = [])
    ∧ (∀ videos_json item,
         config_download_videos env = true → videos_res = Some videos_json →
         error videos_json = false → item ∈ videos videos_json →
         ∃ y, y ∈ download_videos env videos_res self links
              ∧ ExternalLink.eq (video_link env self item) y = true).
Proof.
  unfold download_videos.
  destruct (config_download_videos env) eqn:Hflag; simpl.
  2:{ exists []. rewrite app_nil_r. by repeat split. }
  destruct videos_res as [videos_json|].
  2:{ exists []. rewrite app_nil_r. by repeat split. }
  destruct (error videos_json) eqn:Herr.
  { exists []. rewrite app_nil_r. repeat split; try done.
    intros j item _ [= <-] ?. congruence. }
  destruct (ExternalLink_update_spec (video_link env self <$> videos videos_json) links)
    as (added & E & F & P).
  exists added. unfold video_link in *. rewrite E. split; [done|]. split.
  { eapply Forall_impl; [exact F|]. intros l (item & -> & Hitem)%list_elem_of_fmap.
    by exists videos_json, item. }
  split; [done|]. split; [done|]. split.
  { intros j [= <-] ?. congruence. }
  intros j item _ [= <-] _ Hitem. rewrite <- E. apply P.
  by apply (list_elem_of_fmap_2 (λ item, ExternalLink.mk (video_url item) self video
              (Some (str_strip env (title item) +:+ fileext item)))).
Qed.

(** Without threads the discovery crawls the documents of each course and
    never asks for its videos: the documents of a course are those of a
    crawl of that course alone, and every link that is added has media type
    [extern], no name and one of the courses. *)
Theorem documents_sequential_links (ext : Externals) (config : Config) (env : Env)
    (content_of : Course.t → option (list Week)) (courses : list Course.t)
    (links : list ExternalLink.t) :
  let r := documents_sequential ext config env content_of courses links in
  r.1 = (documents_of ext config env content_of <$> courses)
  ∧ ∃ added, r.2 = links ++ added
             ∧ Forall (λ l, ExternalLink.media_type l = extern
                            ∧ ExternalLink.name l = None
                            ∧ ExternalLink.course l ∈ courses) added.
Proof.
  intros r. subst r. unfold documents_sequential.
  set (step := λ (st : list (list PreMediaContainer.t) * list ExternalLink.t) course,
         let r := download_documents ext config env (content_of course) course st.2 in
         (st.1 ++ [r.1], r.2)).
  assert (∀ st, ∃ added,
    foldl step st courses
    = (st.1 ++ (documents_of ext config env content_of <$> courses), st.2 ++ added)
    ∧ Forall (λ l, ExternalLink.media_type l = extern ∧ ExternalLink.name l = None
                   ∧ ExternalLink.course l ∈ courses) added) as H.
  { induction courses as [|course courses IH]; intros st.
    - exists []. simpl. rewrite !app_nil_r. split; [by destruct st|constructor].
    - cbn [foldl].
      destruct (download_documents_appends ext config env course (content_of course) st.2)
        as (a1 & E1 & F1).
      destruct (IH (step st course)) as (a2 & E2 & F2).
      rewrite E2. subst step. cbv beta zeta. cbn [fst snd]. rewrite E1.
      exists (a1 ++ a2). split.
      + rewrite fmap_cons, <- !app_assoc. simpl. unfold documents_of at 2.
        by rewrite (download_documents_independent ext config env (content_of course)
                      course st.2).
      + apply Forall_app. split.
        * eapply Forall_impl; [exact F1|]. intros l [(Hc & Hm & Hn) _].
          split; [done|]. split; [done|]. rewrite Hc. apply list_elem_of_here.
        * eapply Forall_impl; [exact F2|]. intros l (Hm & Hn & Hc).
          split; [done|]. split; [done|]. by apply list_elem_of_further. }
  destruct (H ([], links)) as (added & -> & F). split; [done|]. by exists added.
Qed.
End DiscoveryClaims.

Section DiscoveryPolicy.
Import Crawl CrawlSpec DiscoverySpec.

Lemma Forall2_same_but_name_Forall (P : PreMediaContainer.t → Prop)
    (l k : list PreMediaContainer.t) :
  (∀ a b, PreMediaContainer.same_but_name a b → P a → P b) →
  Forall2 PreMediaContainer.same_but_name l k → Forall P l → Forall P k.
Proof.
  intros HP. induction 1 as [|a b l k Hab _ IH]; [done|].
  intros [Ha Hl]%Forall_cons. constructor; [by eapply HP|by apply IH].
Qed.

Lemma download_content_unfold (_documents : list (list PreMediaContainer.t))
    (mod_assign externs : list PreMediaContainer.t) :
  RequestHelper.download_content _documents mod_assign externs
  = Conflicts.resolve
      (sorted_by_reverse PreMediaContainer.time
         (concat _documents
          ++ filter (λ x, PreMediaContainer.media_type x ≠ video) externs ++ mod_assign)
       ++ sorted_by_reverse PreMediaContainer.time
            (filter (λ x, PreMediaContainer.media_type x = video) externs)).
Proof.
  unfold RequestHelper.download_content, RequestHelper.split_extern.
  rewrite split_extern_spec. simpl. unfold RequestHelper.sort. by rewrite <- app_assoc.
Qed.

Lemma attachments_of_Forall ext config courses entry :
  Forall (λ d, PreMediaContainer.media_type d = document
               ∧ ∃ c, c ∈ courses
                      ∧ PreMediaContainer.course_id d = Course.course_id c)
         (attachments_of ext config courses entry).
Proof.
  unfold attachments_of. destruct (course_of courses entry) as [course|] eqn:Hc; [|done].
  apply find_course_elem_of in Hc as [Hin _].
  apply Forall_forall. intros d (ds & Hd & Hds)%elem_of_concat.
  apply list_elem_of_fmap in Hds as (a & -> & _).
  apply list_elem_of_fmap in Hd as (file & -> & _).
  split; [done|]. by exists course.
Qed.

Lemma download_mod_assign_Forall ext config courses reply :
  Forall (λ d, PreMediaContainer.media_type d = document
               ∧ ∃ c, c ∈ courses
                      ∧ PreMediaContainer.course_id d = Course.course_id c)
         (download_mod_assign ext config courses reply).
Proof.
  destruct reply as [entries|]; [|constructor].
  rewrite download_mod_assign_spec. apply Forall_forall.
  intros d (ds & Hd & Hds)%elem_of_concat.
  apply list_elem_of_fmap in Hds as (entry & -> & _).
  pose proof (attachments_of_Forall ext config courses entry) as H.
  rewrite Forall_forall in H. by apply H.
Qed.

Lemma documents_of_Forall ext config env content_of course :
  Forall (λ d, PreMediaContainer.media_type d = document
               ∧ PreMediaContainer.course_id d = Course.course_id course)
         (documents_of ext config env content_of course).
Proof.
  unfold documents_of. destruct (content_of course) as [weeks|]; [|constructor].
  destruct (download_documents_spec ext config env course weeks []) as (a & -> & _).
  simpl. apply Forall_fmap, Forall_forall. by intros file _.
Qed.

Lemma documents_sequential_fst ext config env content_of (courses : list Course.t) links :
  (documents_sequential ext config env content_of courses links).1
  = (documents_of ext config env content_of <$> courses).
Proof.
  unfold documents_sequential.
  set (step := λ (st : list (list PreMediaContainer.t) * list ExternalLink.t) course,
         let r := download_documents ext config env (content_of course) course st.2 in
         (st.1 ++ [r.1], r.2)).
  assert (∀ st, (foldl step st courses).1
                = st.1 ++ (documents_of ext config env content_of <$> courses)) as H.
  { induction courses as [|course cs IH]; intros st; simpl; [by rewrite app_nil_r|].
    rewrite IH. subst step. cbv beta zeta. cbn [fst snd].
    rewrite <- app_assoc. simpl. unfold documents_of at 2.
    by rewrite (download_documents_independent ext config env (content_of course)
                  course st.2). }
  apply (H ([], links)).
Qed.

(** [download_mod_assign] returns the attachments of the assignments of
    each listed course that is among [courses], in the order of the answer,
    as documents of the first course with that id; the entries of other
    courses are dropped, and no answer gives no descriptor. *)
Theorem download_mod_assign_courses (ext : Externals) (config : Config)
    (courses : list Course.t) (reply : option (list AssignmentCourse)) :
  (∀ entries, reply = Some entries →
     download_mod_assign ext config courses reply
     = concat (attachments_of ext config courses <$> entries))
  ∧ (reply = None → download_mod_assign ext config courses reply = [])
  ∧ (∀ entry, assignment_course_id entry ∉ (Course.course_id <$> courses) →
              attachments_of ext config courses entry = [])
  ∧ Forall (λ d, PreMediaContainer.media_type d = document
                 ∧ ∃ c, c ∈ courses
                        ∧ PreMediaContainer.course_id d = Course.course_id c)
           (download_mod_assign ext config courses reply).
Proof.
  split; [by intros entries ->; apply download_mod_assign_spec|].
  split; [by intros ->|]. split; [|apply download_mod_assign_Forall].
  intros entry Hid. unfold attachments_of.
  destruct (course_of courses entry) as [course|] eqn:Hc; [|done].
  apply find_course_elem_of in Hc as [Hin Hc]. exfalso. apply Hid.
  rewrite <- Hc. by apply list_elem_of_fmap_2.
Qed.

(** The whitelist and the blacklist reach the discovery: when the courses
    are those that [get_courses] includes, every document of the crawl
    and every assignment attachment belongs to an enumerated course that
    the policy includes. *)
Theorem discovery_respects_policy (ext : Externals) (config : Config) (env : Env)
    (self : RequestHelper.t) (res : list CourseInfo.t)
    (content_of : Course.t → option (list Week))
    (reply : option (list AssignmentCourse)) (links : list ExternalLink.t) :
  let courses := RequestHelper.courses (RequestHelper.get_courses ext config self res) in
  let included d :=
    ∃ c, c ∈ (Course.from_dict ext config <$> res) ∧ Course.included config c
         ∧ PreMediaContainer.course_id d = Course.course_id c in
  Forall (Forall included) (documents_sequential ext config env content_of courses links).1
  ∧ Forall included (download_mod_assign ext config courses reply).
Proof.
  intros courses included.
  assert (Hinc : ∀ c, c ∈ courses →
                      c ∈ (Course.from_dict ext config <$> res) ∧ Course.included config c).
  { intros c Hc. apply elem_of_get_courses in Hc as [? ?]. by rewrite <- ok_included. }
  split.
  - rewrite documents_sequential_fst.
    apply Forall_fmap, Forall_forall. intros course Hcourse. simpl.
    eapply Forall_impl; [apply documents_of_Forall|]. intros d [_ Hid].
    exists course. destruct (Hinc course Hcourse). by repeat split.
  - eapply Forall_impl; [apply download_mod_assign_Forall|].
    intros d [_ (c & Hc & Hid)]. exists c. destruct (Hinc c Hc). by repeat split.
Qed.

(** Every descriptor built from the platform's own content has media type
    [document], videos of the video service included.  So in the list that
    [download_content] returns for the crawled documents, the assignments
    and any resolved external links, the descriptors of media type [video]
    are exactly a final segment, as long as the number of resolved video
    links. *)
Theorem platform_documents_precede_videos (ext : Externals) (config : Config) (env : Env)
    (content_of : Course.t → option (list Week)) (courses : list Course.t)
    (reply : option (list AssignmentCourse)) (links : list ExternalLink.t)
    (externs : list PreMediaContainer.t) :
  let _documents := (documents_sequential ext config env content_of courses links).1 in
  let mod_assign := download_mod_assign ext config courses reply in
  ∃ first last,
    RequestHelper.download_content _documents mod_assign externs = first ++ last
    ∧ Forall (λ d, PreMediaContainer.media_type d ≠ video) first
    ∧ Forall (λ d, PreMediaContainer.media_type d = video) last
    ∧ length last
      = length (filter (λ x, PreMediaContainer.media_type x = video) externs).
Proof.
  intros _documents mod_assign. rewrite download_content_unfold.
  set (bucket := concat _documents
                 ++ filter (λ x, PreMediaContainer.media_type x ≠ video) externs
                 ++ mod_assign).
  set (vids := filter (λ x, PreMediaContainer.media_type x = video) externs).
  pose proof (resolve_same_but_name
                (sorted_by_reverse PreMediaContainer.time bucket
                 ++ sorted_by_reverse PreMediaContainer.time vids)) as HF.
  apply Forall2_app_inv_l in HF as (first & last & H1 & H2 & ->).
  exists first, last. split; [done|].
  assert (Hbucket : Forall (λ d, PreMediaContainer.media_type d ≠ video) bucket).
  { subst bucket. rewrite !Forall_app. split; [|split].
    - subst _documents. rewrite documents_sequential_fst.
      apply Forall_forall. intros d (ds & Hd & Hds)%elem_of_concat.
      apply list_elem_of_fmap in Hds as (course & -> & _).
      pose proof (documents_of_Forall ext config env content_of course) as HD.
      rewrite Forall_forall in HD. destruct (HD d Hd) as [Hm _]. by rewrite Hm.
    - apply Forall_forall. by intros d [? _]%list_elem_of_filter.
    - subst mod_assign. eapply Forall_impl; [apply download_mod_assign_Forall|].
      intros d [Hd _]. by rewrite Hd. }
  split; [|split].
  - apply (Forall2_same_but_name_Forall
             (λ d, PreMediaContainer.media_type d ≠ video) _ _) in H1; [done| |].
    + intros a b (_ & _ & _ & _ & _ & <- & _) Ha. exact Ha.
    + by rewrite sorted_by_reverse_perm.
  - apply (Forall2_same_but_name_Forall
             (λ d, PreMediaContainer.media_type d = video) _ _) in H2; [done| |].
    + intros a b (_ & _ & _ & _ & _ & <- & _) Ha. exact Ha.
    + rewrite sorted_by_reverse_perm. subst vids.
      apply Forall_forall. by intros d [? _]%list_elem_of_filter.
  - apply Forall2_length in H2. rewrite <- H2. by rewrite sorted_by_reverse_perm.
Qed.
End DiscoveryPolicy.

(** ** The resolution of all links *)

Section DownloadExtern.
Import Crawl CrawlSpec.
Context (ext : Externals) (env_of : ExternalLink.t → Session * Z).
Implicit Types (links : list ExternalLink.t) (w : World)
  (all_content : list PreMediaContainer.t).

Lemma from_extern_link_pre_mono session now url course media_type filename w :
  Database.pre_containers (db w)
  ⊆ Database.pre_containers
      (db (Resolution.from_extern_link ext session now url course media_type filename w).2).
Proof.
  destruct (from_extern_link_db ext session now url course media_type filename w)
    as [->|[Hdump [->|(c' & Hurl & ->)]]]; [done|done|].
  apply from_dump_True in Hdump as [_ Hnone]. simpl. rewrite Hurl.
  by apply insert_subseteq.
Qed.

Lemma download_extern_sequential_pre_mono links all_content w o w' :
  download_extern_sequential ext env_of links all_content w = (o, w') →
  Database.pre_containers (db w) ⊆ Database.pre_containers (db w').
Proof.
  revert all_content w. induction links as [|link links IH]; intros all_content w; simpl.
  - by intros [= _ <-].
  - pose proof (from_extern_link_pre_mono (env_of link).1 (env_of link).2
                  (ExternalLink.url link) (ExternalLink.course link)
                  (ExternalLink.media_type link) (ExternalLink.name link) w) as Hmono.
    destruct (Resolution.from_extern_link _ _ _ _ _ _ _ w) as [[[c|]|e] w1]; simpl in *.
    + intros H. etrans; [exact Hmono|]. by eapply IH.
    + intros H. etrans; [exact Hmono|]. by eapply IH.
    + by intros [= _ <-].
Qed.

(** Without threads, every descriptor that the loop of [download_extern]
    returns is in the positive cache afterwards, under the url of one of
    the links, and there is at most one descriptor per link. *)
Theorem download_extern_sequential_results_are_cached links all_content w res w' :
  download_extern_sequential ext env_of links all_content w = (Returns res, w') →
  ∃ new, res = all_content ++ new
         ∧ (length new ≤ length links)%nat
         ∧ Forall (λ c, ∃ link, link ∈ links
                                ∧ Database.pre_containers (db w')
                                    !! ExternalLink.url link = Some c) new.
Proof.
  revert all_content w. induction links as [|link links IH]; intros all_content w; simpl.
  - intros [= <- <-]. exists []. by rewrite app_nil_r.
  - destruct (Resolution.from_extern_link _ _ _ _ _ _ _ w) as [[[c|]|e] w1] eqn:Hres;
      simpl; [| |done].
    + intros H. destruct (IH _ _ H) as (new & -> & Hlen & Hnew).
      pose proof (download_extern_sequential_pre_mono _ _ _ _ _ H) as Hmono.
      destruct (from_extern_link_Some ext _ _ _ _ _ _ _ _ _ Hres) as [_ Hc].
      exists (c :: new). rewrite <- app_assoc. split; [done|]. split; [simpl; lia|].
      constructor.
      * exists link. split; [apply list_elem_of_here|].
        by eapply lookup_weaken.
      * eapply Forall_impl; [exact Hnew|]. intros c' (l & Hl & Hc').
        exists l. split; [by apply list_elem_of_further|done].
    + intros H. destruct (IH _ _ H) as (new & -> & Hlen & Hnew).
      exists new. split; [done|]. split; [lia|].
      eapply Forall_impl; [exact Hnew|]. intros c' (l & Hl & Hc').
      exists l. split; [by apply list_elem_of_further|done].
Qed.

(** Without threads, when the url of every link is marked or cached, the
    loop of [download_extern] returns the cached descriptors of the links
    that are not marked, in the order of the links, and leaves the world
    as it is: it makes no request and writes nothing. *)
Theorem download_extern_sequential_from_cache links all_content w :
  (∀ link, link ∈ links →
           Resolution.from_dump (ExternalLink.url link) (db w) ≠ Resolution.DumpTrue) →
  download_extern_sequential ext env_of links all_content w
  = (Returns (all_content ++ omap (cached (db w)) links), w).
Proof.
  revert all_content. induction links as [|link links IH]; intros all_content Hall; simpl.
  - by rewrite app_nil_r.
  - assert (Hlink := Hall link (list_elem_of_here _ _)).
    assert (Hrest : ∀ l, l ∈ links →
              Resolution.from_dump (ExternalLink.url l) (db w) ≠ Resolution.DumpTrue).
    { intros l Hl. apply Hall. by apply list_elem_of_further. }
    unfold Resolution.from_extern_link, cached.
    unfold Resolution.from_dump, Database.get_bad_urls, Database.get_pre_container_by_url
      in Hlink |- *.
    case_bool_decide as Hbad; simpl.
    + by rewrite IH.
    + destruct (Database.pre_containers (db w) !! ExternalLink.url link) as [c|]; [|done].
      simpl. rewrite IH by done. by rewrite <- app_assoc.
Qed.
End DownloadExtern.

Lemma download_extern_sequential_from_cache_witness :
  let url := "https://example.org/index.html" in
  let w := on_db (Database.add_bad_url url) Sample.world in
  let links := [ExternalLink.mk url Sample.course extern None] in
  Crawl.download_extern_sequential Sample.ext (λ _, (Sample.serves Sample.pdf, 0)) links [] w
  = (Returns ([] ++ omap (CrawlSpec.cached (db w)) links), w).
Proof.
  intros url w links.
  apply (download_extern_sequential_from_cache Sample.ext (λ _, (Sample.serves Sample.pdf, 0)) links [] w).
  intros link ->%list_elem_of_singleton. vm_compute. discriminate.
Defined.

Lemma download_extern_sequential_results_are_cached_witness :
  let url := "https://example.org/a.pdf" in
  let links := [ExternalLink.mk url Sample.course extern None] in
  let r := Crawl.download_extern_sequential Sample.ext (λ _, (Sample.serves Sample.pdf, 0)) links []
             Sample.world in
  ∃ new, match r.1 with Returns res => res | Throws _ => [] end = [] ++ new
         ∧ (length new ≤ length links)%nat
         ∧ Forall (λ c, ∃ link, link ∈ links
                                ∧ Database.pre_containers (db r.2)
                                    !! ExternalLink.url link = Some c) new.
Proof.
  intros url links r.
  destruct r as [o w'] eqn:E. subst r.
  assert (∃ res, o = Returns res) as (res & ->).
  { apply (f_equal fst) in E. vm_compute in E. subst o. by eexists. }
  simpl.
  exact (download_extern_sequential_results_are_cached Sample.ext
           (λ _, (Sample.serves Sample.pdf, 0)) links [] Sample.world res w' E).
Defined.

(** ** The course table of [get_courses] *)

Lemma get_courses_loop_mapping (ext : Externals) (config : Config)
    (acc : RequestHelper.t) (res : list CourseInfo.t) (id : Z) :
  RequestHelper.course_id_mapping (foldl (RequestHelper.get_courses_step ext config) acc res)
    !! id
  = match last (filter (λ c, Course.course_id c = id) (Course.from_dict ext config <$> res)) with
    | Some c => Some c
    | None => RequestHelper.course_id_mapping acc !! id
    end.
Proof.
  revert acc. induction res as [|item res IH]; intros acc; [done|].
  simpl. rewrite IH. rewrite filter_cons. simpl.
  set (c := Course.from_dict ext config item).
  case_decide as Hid.
  - rewrite last_cons. destruct (last _); [done|].
    fold c. rewrite Hid. by rewrite lookup_insert_eq.
  - destruct (last _); [done|]. fold c. by rewrite lookup_insert_ne.
Qed.

(** [get_courses] starts [courses] and [_courses] afresh, so they depend on
    the response only, but it keeps the entries that [course_id_mapping]
    already has: after the call an id maps to the last course of the
    response with that id, and to what it mapped to before if the response
    has none.  So every enumerated course, included or not, is found in
    the table under its id, as a course equal to it. *)
Theorem get_courses_mapping (ext : Externals) (config : Config)
    (self : RequestHelper.t) (res : list CourseInfo.t) :
  let st := RequestHelper.get_courses ext config self res in
  (∀ id, RequestHelper.course_id_mapping st !! id
         = match last (filter (λ c, Course.course_id c = id)
                         (Course.from_dict ext config <$> res)) with
           | Some c => Some c
           | None => RequestHelper.course_id_mapping self !! id
           end)
  ∧ (∀ c, c ∈ RequestHelper._courses st →
          ∃ c', RequestHelper.course_id_mapping st !! Course.course_id c = Some c'
                ∧ c' ∈ RequestHelper._courses st
                ∧ Course.eq c (Course.PyCourse c') = true)
  ∧ dom (RequestHelper.course_id_mapping self) ⊆ dom (RequestHelper.course_id_mapping st)
  ∧ (∀ other,
       RequestHelper.courses (RequestHelper.get_courses ext config other res)
         = RequestHelper.courses st
       ∧ RequestHelper._courses (RequestHelper.get_courses ext config other res)
         = RequestHelper._courses st).
Proof.
  intros st.
  assert (Hmap : ∀ id, RequestHelper.course_id_mapping st !! id
         = match last (filter (λ c, Course.course_id c = id)
                         (Course.from_dict ext config <$> res)) with
           | Some c => Some c
           | None => RequestHelper.course_id_mapping self !! id
           end).
  { intros id. subst st. unfold RequestHelper.get_courses. simpl.
    by rewrite get_courses_loop_mapping. }
  assert (Hall : RequestHelper._courses st ≡ₚ (Course.from_dict ext config <$> res)).
  { subst st. unfold RequestHelper.get_courses.
    destruct (get_courses_loop ext config
                (RequestHelper.mk [] [] (RequestHelper.course_id_mapping self)) res)
      as [H _].
    simpl in *. by rewrite H, sorted_perm. }
  split; [exact Hmap|]. split; [|split].
  - intros c Hc. rewrite Hmap.
    destruct (last _) as [c'|] eqn:Hlast.
    + apply last_Some_elem_of, list_elem_of_filter in Hlast as [Hid Hin].
      exists c'. split; [done|]. split; [by rewrite Hall|].
      simpl. by apply bool_decide_eq_true.
    + apply last_None in Hlast. rewrite Hall in Hc.
      assert (c ∈ filter (λ c0, Course.course_id c0 = Course.course_id c)
                (Course.from_dict ext config <$> res)) as Hin
        by by apply list_elem_of_filter.
      rewrite Hlast in Hin. by apply elem_of_nil in Hin.
  - intros id [c Hc]%elem_of_dom. apply elem_of_dom. rewrite Hmap.
    destruct (last _); by eexists.
  - intros other. subst st. unfold RequestHelper.get_courses.
    destruct (get_courses_loop ext config
                (RequestHelper.mk [] [] (RequestHelper.course_id_mapping self)) res)
      as [H1 H2].
    destruct (get_courses_loop ext config
                (RequestHelper.mk [] [] (RequestHelper.course_id_mapping other)) res)
      as [H3 H4].
    simpl in *. by rewrite H1, H2, H3, H4.
Qed.

(** ** The directory of a platform document *)

Lemma rstrip_no_trailing (c : ascii) (s t : string) :
  PyStr.rstrip c s ≠ t +:+ String c "".
Proof.
  revert t. induction s as [|a s IH]; intros t; simpl.
  - by destruct t.
  - destruct (PyStr.rstrip c s) as [|b r] eqn:E.
    + destruct (Ascii.eqb a c) eqn:Hac; [by destruct t|].
      destruct t as [|a' t]; simpl.
      * intros [= ->]. by rewrite Ascii.eqb_refl in Hac.
      * rewrite app_String. intros [= _ H]. by destruct t.
    + destruct t as [|a' t].
      * done.
      * rewrite app_String. intros [= _ H]. by apply (IH t).
Qed.

Lemma strip_not_endswith (c : ascii) (s : string) :
  PyStr.endswith (PyStr.strip c s) (String c "") = false.
Proof.
  destruct (PyStr.endswith _ _) eqn:E; [|done].
  apply endswith_drop_last in E. symmetry in E.
  by apply rstrip_no_trailing in E.
Qed.

Lemma lstrip_not_startswith (c : ascii) (s : string) :
  PyStr.startswith (PyStr.lstrip c s) (String c "") = false.
Proof.
  induction s as [|a s IH]; [done|]. simpl.
  destruct (Ascii.eqb a c) eqn:E; [done|]. simpl.
  rewrite Ascii.eqb_sym. by rewrite E.
Qed.

Lemma rstrip_app_char (c : ascii) (s : string) :
  PyStr.rstrip c (s +:+ String c "") = PyStr.rstrip c s.
Proof.
  induction s as [|a s IH].
  - simpl. by rewrite Ascii.eqb_refl.
  - rewrite app_String. simpl. by rewrite IH.
Qed.

Lemma lstrip_app_char (c : ascii) (s : string) :
  PyStr.lstrip c (s +:+ String c "") = PyStr.lstrip c s
  ∨ PyStr.lstrip c (s +:+ String c "") = PyStr.lstrip c s +:+ String c "".
Proof.
  induction s as [|a s IH].
  - left. simpl. by rewrite Ascii.eqb_refl.
  - rewrite app_String. simpl. destruct (Ascii.eqb a c); [done|]. by right.
Qed.

Lemma strip_cons_char (c : ascii) (s : string) :
  PyStr.strip c (String c s) = PyStr.strip c s.
Proof. unfold PyStr.strip. simpl. by rewrite Ascii.eqb_refl. Qed.

Lemma strip_app_char (c : ascii) (s : string) :
  PyStr.strip c (s +:+ String c "") = PyStr.strip c s.
Proof.
  unfold PyStr.strip. destruct (lstrip_app_char c s) as [->| ->]; [done|].
  apply rstrip_app_char.
Qed.

Lemma strip_idemp (c : ascii) (s : string) :
  PyStr.strip c (PyStr.strip c s) = PyStr.strip c s.
Proof.
  unfold PyStr.strip.
  assert (Hl : ∀ t, PyStr.startswith t (String c "") = false → PyStr.lstrip c t = t).
  { intros [|a t]; [done|]. simpl. rewrite (Ascii.eqb_sym c a).
    destruct (Ascii.eqb a c); [|done]. by destruct t. }
  assert (Hr : ∀ t, PyStr.rstrip c (PyStr.rstrip c t) = PyStr.rstrip c t).
  { induction t as [|a t IH]; [done|]. simpl.
    destruct (PyStr.rstrip c t) as [|b r] eqn:E.
    - destruct (Ascii.eqb a c) eqn:Hac; [done|]. simpl. by rewrite Hac.
    - simpl in *. by rewrite IH. }
  assert (Hs : ∀ t, PyStr.startswith t (String c "") = false →
                    PyStr.startswith (PyStr.rstrip c t) (String c "") = false).
  { intros [|a t]; [done|]. simpl. rewrite (Ascii.eqb_sym c a).
    destruct (Ascii.eqb a c) eqn:Hac; [by destruct t|]. intros _.
    destruct (PyStr.rstrip c t); simpl; by rewrite (Ascii.eqb_sym c a), Hac. }
  rewrite Hl; [apply Hr|]. apply Hs, lstrip_not_startswith.
Qed.

Section DocumentLocation.
Import PreMediaContainer.
Context (ext : Externals) (config : Config).

(** The directory of a document is the course's path to the sanitised
    sub-directory: the given one without the slashes around it, or none
    when sub-directories are switched off; a video-service url adds the
    component [Videos], after exactly one slash.  So slashes before and
    after the given sub-directory, however many, make no difference to the
    descriptor, nor does a missing one compared with an empty one. *)
Theorem document_location (name url download_url : string) (course : Course.t)
    (last_modified size : Z) (relative_location : option string) :
  location (document_from_api ext config name url download_url course last_modified
              relative_location size)
  = Course.path_of ext course [sanitize_name ext (DocumentSpec.folder config url relative_location)]
  ∧ (∀ rl,
       document_from_api ext config name url download_url course last_modified
         (Some ("/" +:+ rl)) size
       = document_from_api ext config name url download_url course last_modified
           (Some rl) size
       ∧ document_from_api ext config name url download_url course last_modified
           (Some (rl +:+ "/")) size
         = document_from_api ext config name url download_url course last_modified
             (Some rl) size
       ∧ document_from_api ext config name url download_url course last_modified
           (Some (PyStr.strip "/" rl)) size
         = document_from_api ext config name url download_url course last_modified
             (Some rl) size)
  ∧ document_from_api ext config name url download_url course last_modified None size
    = document_from_api ext config name url download_url course last_modified (Some "") size
  ∧ (make_subdirs config = false →
     ∀ rl, document_from_api ext config name url download_url course last_modified rl size
           = document_from_api ext config name url download_url course last_modified
               None size).
Proof.
  split; [|split; [|split]].
  - unfold document_from_api, DocumentSpec.folder. cbn [location]. do 3 f_equal.
    destruct (PyStr.contains "mod/videoservice/file.php" url); [|done].
    unfold path_join. cbn [PyStr.startswith Ascii.eqb Bool.eqb].
    destruct (make_subdirs config); [|done].
    rewrite strip_not_endswith, orb_false_r.
    destruct (String.eqb _ "") eqn:E.
    + apply String.eqb_eq in E. by rewrite E.
    + reflexivity.
  - intros rl. unfold document_from_api. cbn [default from_option id].
    change ("/" +:+ rl) with (String "/" rl).
    by rewrite strip_cons_char, strip_app_char, strip_idemp.
  - done.
  - intros Hoff rl. unfold document_from_api. by rewrite Hoff.
Qed.
End DocumentLocation.

(** ** The extension of a renamed file *)

Section Rfind.
Import PyStr Chars.
Implicit Types (c : ascii) (s t p : string) (i last k : Z).

Lemma rfind_from_range c s i last :
  rfind_from c s i last = last
  ∨ i ≤ rfind_from c s i last < i + Z.of_nat (String.length s).
Proof.
  revert i last. induction s as [|a s IH]; intros i last; [by left|].
  cbn [rfind_from String.length]. rewrite Nat2Z.inj_succ.
  destruct (IH (i + 1) (if Ascii.eqb a c then i else last)) as [->|H].
  - destruct (Ascii.eqb a c); [right; lia|by left].
  - right. lia.
Qed.

Lemma rfind_from_app c s t i last :
  rfind_from c (s +:+ t) i last
  = rfind_from c t (i + Z.of_nat (String.length s)) (rfind_from c s i last).
Proof.
  revert i last. induction s as [|a s IH]; intros i last.
  - simpl. by rewrite Z.add_0_r.
  - rewrite app_String. cbn [rfind_from String.length]. rewrite IH, Nat2Z.inj_succ.
    f_equal. lia.
Qed.

Lemma rfind_from_absent c t i last :
  occurs c t = false → rfind_from c t i last = last.
Proof.
  revert i last. induction t as [|a t IH]; intros i last; [done|]. simpl.
  intros [-> H]%orb_false_iff. by apply IH.
Qed.

Lemma rfind_from_present c t i last :
  occurs c t = true → i ≤ rfind_from c t i last < i + Z.of_nat (String.length t).
Proof.
  revert i last. induction t as [|a t IH]; intros i last; [done|].
  cbn [rfind_from String.length occurs]. rewrite Nat2Z.inj_succ.
  destruct (Ascii.eqb a c); simpl.
  - intros _. destruct (rfind_from_range c t (i + 1) i) as [->|H]; lia.
  - intros H. specialize (IH (i + 1) last H). lia.
Qed.

Lemma drop_rfind_from c p i last k :
  last < i → rfind_from c p i last = k → i ≤ k →
  ∃ r, drop (Z.to_nat (k - i)) p = String c r ∧ occurs c r = false.
Proof.
  revert i last. induction p as [|a p IH]; intros i last Hlast; simpl.
  - intros <-. lia.
  - intros Hk Hik. destruct (decide (i + 1 ≤ k)) as [Hle|Hgt].
    + destruct (IH (i + 1) (if Ascii.eqb a c then i else last)) as (r & Hr & Ho);
        [destruct (Ascii.eqb a c); lia|done|done|].
      exists r. split; [|done].
      replace (Z.to_nat (k - i)) with (S (Z.to_nat (k - (i + 1)))) by lia. done.
    + assert (k = i) as -> by lia. replace (Z.to_nat (i - i)) with 0%nat by lia.
      destruct (occurs c p) eqn:Ho.
      { pose proof (rfind_from_present c p (i + 1)
                      (if Ascii.eqb a c then i else last) Ho). lia. }
      rewrite rfind_from_absent in Hk by done.
      destruct (Ascii.eqb a c) eqn:Hac; [|lia].
      apply Ascii.eqb_eq in Hac. subst a. by exists p.
Qed.

Lemma occurs_app c s t : occurs c (s +:+ t) = occurs c s || occurs c t.
Proof.
  induction s as [|a s IH]; [done|]. rewrite app_String. simpl.
  by rewrite IH, orb_assoc.
Qed.

Lemma take_app_length s t : take (String.length s) (s +:+ t) = s.
Proof. induction s as [|a s IH]; [done|]. rewrite app_String. simpl. by rewrite IH. Qed.

Lemma length_take (n : nat) s : (n ≤ String.length s)%nat → String.length (take n s) = n.
Proof.
  revert s. induction n as [|n IH]; intros [|a s]; simpl; try lia.
  intros H. rewrite IH; lia.
Qed.

Lemma string_app_assoc s t p : (s +:+ t) +:+ p = s +:+ (t +:+ p).
Proof. induction s as [|a s IH]; [done|]. by rewrite !app_String, IH. Qed.

Lemma peek_app (j : nat) s t :
  (j < String.length s)%nat → take 1 (drop j (s +:+ t)) = take 1 (drop j s).
Proof.
  revert j. induction s as [|a s IH]; intros j; simpl; [lia|].
  rewrite app_String. destruct j as [|j]; [done|]. simpl. intros H. apply IH. lia.
Qed.

Lemma splitext_scan_app s t t' (j : Z) (fuel : nat) :
  0 ≤ j → j + Z.of_nat fuel ≤ Z.of_nat (String.length s) →
  splitext_scan (s +:+ t) j fuel = splitext_scan (s +:+ t') j fuel.
Proof.
  revert j. induction fuel as [|fuel IH]; intros j Hj Hle; [done|].
  cbn [splitext_scan]. rewrite !peek_app by lia. rewrite IH by lia. done.
Qed.

Lemma splitext_scan_mono p (j : Z) (n m : nat) :
  (n ≤ m)%nat → splitext_scan p j n = true → splitext_scan p j m = true.
Proof.
  revert j m. induction n as [|n IH]; intros j m Hle; [done|].
  destruct m as [|m]; [lia|]. cbn [splitext_scan].
  destruct (negb _); [done|]. apply IH. lia.
Qed.

Lemma occurs_string_of_uint c (d : Decimal.uint) :
  c = "."%char ∨ c = "/"%char → occurs c (NilZero.string_of_uint d) = false.
Proof.
  intros Hc.
  assert (H : occurs c (NilEmpty.string_of_uint d) = false).
  { induction d; simpl; rewrite ?IHd; by destruct Hc as [-> | ->]. }
  destruct d; try exact H. by destruct Hc as [-> | ->].
Qed.

Lemma occurs_str c (n : nat) :
  c = "."%char ∨ c = "/"%char → occurs c (str (Z.of_nat n)) = false.
Proof.
  intros Hc. unfold str. destruct (Z.of_nat n) eqn:E; [| |lia].
  - by destruct Hc as [-> | ->].
  - by apply occurs_string_of_uint.
Qed.
End Rfind.

Section RenamedExtension.
Import PyStr Chars.

Lemma splitext_suffix (name : string) :
  (splitext name).2 ≠ "" →
  let b := (splitext name).1 in
  let e := (splitext name).2 in
  ∃ r, e = String "." r ∧ occurs "." r = false ∧ occurs "/" e = false
       ∧ rfind "/" b = rfind "/" name
       ∧ rfind "/" name < Z.of_nat (String.length b)
       ∧ splitext_scan name (rfind "/" name + 1)
           (Z.to_nat (Z.of_nat (String.length b) - (rfind "/" name + 1))) = true.
Proof.
  pose proof (splitext_app name) as Happ. revert Happ.
  unfold splitext.
  set (sep := rfind "/" name). set (dot := rfind "." name).
  destruct ((sep <? dot) && _) eqn:Hc; cbn [fst snd]; [|done].
  intros Happ _. apply andb_true_iff in Hc as [Hlt%Z.ltb_lt Hscan].
  assert (Hsep : -1 ≤ sep).
  { subst sep. unfold rfind. destruct (rfind_from_range "/" name 0 (-1)); lia. }
  assert (Hdot : 0 ≤ dot < Z.of_nat (String.length name)).
  { subst dot. unfold rfind in *. destruct (rfind_from_range "." name 0 (-1)); lia. }
  assert (Hlen : String.length (take (Z.to_nat dot) name) = Z.to_nat dot)
    by (apply length_take; lia).
  destruct (drop_rfind_from "." name 0 (-1) dot) as (r & Hr & Ho); [lia|done|lia|].
  rewrite Z.sub_0_r in Hr. exists r.
  assert (Hslash : occurs "/" (drop (Z.to_nat dot) name) = false).
  { destruct (occurs "/" (drop (Z.to_nat dot) name)) eqn:Hs; [|done].
    pose proof (rfind_from_present "/" _
                  (0 + Z.of_nat (String.length (take (Z.to_nat dot) name)))
                  (rfind_from "/" (take (Z.to_nat dot) name) 0 (-1)) Hs) as H.
    rewrite <- rfind_from_app, Happ, Hlen in H. fold (rfind "/" name) in H.
    fold sep in H. lia. }
  split; [done|]. split; [done|]. split; [done|]. split; [|split].
  - subst sep. rewrite <- Happ at 2. unfold rfind.
    by rewrite rfind_from_app, (rfind_from_absent "/" (drop (Z.to_nat dot) name)).
  - rewrite Hlen. lia.
  - rewrite Hlen, Z2Nat.id by lia. done.
Qed.

(** A name that has an extension keeps it when it is renamed: the number
    goes before the extension, and [os.path.splitext] splits the new name
    into the old stem with the number and the old extension. *)
Theorem renaming_keeps_extension (i : nat) (name : string) :
  (splitext name).2 ≠ "" →
  splitext (Conflicts.new_name i name)
  = ((splitext name).1 +:+ "." +:+ str (Z.of_nat i), (splitext name).2).
Proof.
  intros He. destruct (splitext_suffix name He) as (r & Hr & Hdotr & Hslash & Hsep & Hlt & Hscan).
  pose proof (splitext_app name) as Happ.
  unfold Conflicts.new_name. destruct (splitext name) as [b e]. cbn [fst snd] in *.
  set (d := str (Z.of_nat i)).
  set (stem := b +:+ "." +:+ d).
  assert (Hname : b +:+ "." +:+ d +:+ e = stem +:+ e).
  { subst stem. by rewrite !string_app_assoc. }
  rewrite Hname.
  assert (Hstem : String.length stem = (String.length b + 1 + String.length d)%nat).
  { subst stem. rewrite !string_length_app. simpl. lia. }
  assert (Hd : ∀ c, c = "."%char ∨ c = "/"%char → occurs c d = false)
    by (intros c Hc; by apply occurs_str).
  assert (Hdot' : rfind "." (stem +:+ e) = Z.of_nat (String.length stem)).
  { unfold rfind. rewrite rfind_from_app, Hr. cbn [rfind_from Ascii.eqb Bool.eqb].
    rewrite (rfind_from_absent "." r) by done. lia. }
  assert (Hsep' : rfind "/" (stem +:+ e) = rfind "/" name).
  { unfold rfind. rewrite rfind_from_app, (rfind_from_absent "/" e) by done.
    subst stem. rewrite rfind_from_app.
    rewrite (rfind_from_absent "/" ("." +:+ d)); [exact Hsep|].
    change ("." +:+ d) with (String "." d). simpl. apply Hd. by right. }
  unfold splitext. rewrite Hdot', Hsep'.
  assert (Hcond : (rfind "/" name <? Z.of_nat (String.length stem))
                  && splitext_scan (stem +:+ e) (rfind "/" name + 1)
                       (Z.to_nat (Z.of_nat (String.length stem) - (rfind "/" name + 1)))
                  = true).
  { apply andb_true_iff. split; [apply Z.ltb_lt; lia|].
    assert (-1 ≤ rfind "/" name).
    { unfold rfind. destruct (rfind_from_range "/" name 0 (-1)); lia. }
    eapply splitext_scan_mono; [|].
    2:{ rewrite <- Hname, (splitext_scan_app b _ e); [by rewrite Happ|lia|lia]. }
    lia. }
  rewrite Hcond, Nat2Z.id. by rewrite take_app_length, drop_app_length.
Qed.

Lemma renaming_keeps_extension_witness :
  splitext (Conflicts.new_name 1 "notes.tar.gz")
  = ((splitext "notes.tar.gz").1 +:+ "." +:+ str (Z.of_nat 1), (splitext "notes.tar.gz").2).
Proof. apply (renaming_keeps_extension 1 "notes.tar.gz"). vm_compute. discriminate. Defined.

(** A name that has no dot and no slash has no extension, and after it is
    renamed the number is its extension. *)
Theorem renaming_without_extension (i : nat) (name : string) :
  name ≠ "" → occurs "." name = false → occurs "/" name = false →
  splitext name = (name, "")
  ∧ Conflicts.new_name i name = name +:+ "." +:+ str (Z.of_nat i)
  ∧ splitext (Conflicts.new_name i name) = (name, "." +:+ str (Z.of_nat i)).
Proof.
  intros Hne Hdot Hslash.
  assert (Hs : splitext name = (name, "")).
  { unfold splitext, rfind. by rewrite !rfind_from_absent. }
  split; [done|]. unfold Conflicts.new_name. rewrite Hs.
  change (name +:+ "." +:+ str (Z.of_nat i) +:+ "")
    with (name +:+ "." +:+ (str (Z.of_nat i) +:+ "")).
  rewrite app_empty_r. split; [done|].
  set (d := str (Z.of_nat i)).
  assert (Hd : ∀ c, c = "."%char ∨ c = "/"%char → occurs c d = false)
    by (intros c Hc; by apply occurs_str).
  unfold splitext, rfind. rewrite !rfind_from_app.
  rewrite (rfind_from_absent "/" name), (rfind_from_absent "." name) by done.
  change ("." +:+ d) with (String "." d). cbn [rfind_from Ascii.eqb Bool.eqb].
  rewrite !rfind_from_absent by (apply Hd; auto).
  rewrite Z.add_0_l, Nat2Z.id, take_app_length, drop_app_length.
  replace (-1 + 1) with 0 by lia. rewrite Z.sub_0_r, Nat2Z.id.
  destruct name as [|a name]; [done|].
  assert (Ha : Ascii.eqb a "." = false).
  { simpl in Hdot. by apply orb_false_iff in Hdot as [? _]. }
  replace (-1 <? Z.of_nat (String.length (String a name))) with true
    by (symmetry; apply Z.ltb_lt; lia).
  cbn [String.length splitext_scan andb]. rewrite app_String.
  change (take 1 (drop (Z.to_nat 0) (String a (name +:+ String "." d))))
    with (String a "").
  destruct (String.eqb (String a "") ".") eqn:E; [|done].
  apply String.eqb_eq in E. injection E as ->. done.
Qed.

Lemma renaming_without_extension_witness :
  splitext "README" = ("README", "")
  ∧ Conflicts.new_name 0 "README" = "README" +:+ "." +:+ str (Z.of_nat 0)
  ∧ splitext (Conflicts.new_name 0 "README") = ("README", "." +:+ str (Z.of_nat 0)).
Proof. by apply (renaming_without_extension 0 "README"). Defined.
End RenamedExtension.
